(** * The contact-submission pipeline of [backend/server.js]

    A shallow embedding of the Express handlers of the portfolio backend:
    the sanitizer, the e-mail and spam checks, the Telegram notifier with
    its retry loop, the JSON message file and the five message routes.

    Strings are JavaScript strings restricted to code units below 256
    (every [ascii] is one UTF-16 code unit, so [String.length] is the
    [.length] of the source).  The file system, the clock and the remote
    service are inputs of the model. *)

From Stdlib Require Import Bool Arith Lia List ZArith Ascii String.
From Stdlib Require Import Numbers.DecimalString.
Import ListNotations.
Open Scope string_scope.
Open Scope nat_scope.

(* ================================================================= *)
(** ** Characters *)

Module Chars.

Definition code (c : ascii) : nat := nat_of_ascii c.

Definition in_range (lo hi : nat) (c : ascii) : bool :=
  (lo <=? code c) && (code c <=? hi).

Definition is_lower (c : ascii) : bool := in_range 97 122 c.
Definition is_upper (c : ascii) : bool := in_range 65 90 c.
Definition is_alpha (c : ascii) : bool := is_lower c || is_upper c.
Definition is_digit (c : ascii) : bool := in_range 48 57 c.

(** [\w] without the [u] flag: [[A-Za-z0-9_]]. *)
Definition is_word (c : ascii) : bool :=
  is_alpha c || is_digit c || (code c =? 95).

(** What [String.prototype.trim] removes: WhiteSpace and LineTerminator
    (TAB, LF, VT, FF, CR, SP and NBSP are the ones below 256). *)
Definition is_space (c : ascii) : bool :=
  in_range 9 13 c || (code c =? 32) || (code c =? 160).

(** The characters [.] does not match. *)
Definition is_line_terminator (c : ascii) : bool :=
  (code c =? 10) || (code c =? 13).

(** Canonicalize of the [i] flag (no [u] flag): the upper-case mapping
    where it is a single code unit.  Below 256 that is a-z and the
    Latin-1 letters E0-FE other than the division sign; the images of
    B5 and FF lie above 255 and are shared with no other code unit
    below 256, and DF has a two-unit upper case, so the three stay. *)
Definition canonicalize (c : ascii) : ascii :=
  if is_lower c then ascii_of_nat (code c - 32)
  else if in_range 224 254 c && negb (code c =? 247)
       then ascii_of_nat (code c - 32)
  else c.

Definition eqb_ci (a b : ascii) : bool :=
  Ascii.eqb (canonicalize a) (canonicalize b).

(** The class of the second [replace] of the sanitizer: the angle
    brackets, the double quote (code 34), the single quote, the
    backquote, the semicolon, parentheses and braces. *)
Definition is_dangerous (c : ascii) : bool :=
  existsb (Ascii.eqb c)
    ["<"; ">"; "034"; "'"; "`"; ";"; "("; ")"; "{"; "}"]%char.

(** The class of [escapeMarkdown]: [[_*\[\]()~`>#+\-=|{}.!]]. *)
Definition is_markdown_special (c : ascii) : bool :=
  existsb (Ascii.eqb c)
    ["_"; "*"; "["; "]"; "("; ")"; "~"; "`"; ">"; "#"; "+"; "-"; "=";
     "|"; "{"; "}"; "."; "!"]%char.

End Chars.

(* ================================================================= *)
(** ** Regular expressions as position matchers

    A regular expression of the source is embedded as the function that
    tries it at one position: it receives the character before the
    position (for [\b]) and the rest of the input, and returns the length
    of the match there.  [test] and the global [replace] of the source
    are then the two scans below. *)

Module Regex.

Definition regex : Type := option ascii -> string -> option nat.

(** [re.test(s)]: is there a position where [re] matches? *)
Fixpoint test_from (re : regex) (prev : option ascii) (s : string) : bool :=
  match re prev s with
  | Some _ => true
  | None =>
      match s with
      | EmptyString => false
      | String c t => test_from re (Some c) t
      end
  end.

Definition test (re : regex) (s : string) : bool := test_from re None s.

(** [s.replace(re, '')] with the [g] flag: leftmost matches, not
    overlapping, each one deleted.  [skip] counts the characters of the
    current match still to be dropped. *)
Fixpoint replaceAll_from (re : regex) (skip : nat) (prev : option ascii)
         (s : string) : string :=
  match s with
  | EmptyString => EmptyString
  | String c t =>
      match skip with
      | S k => replaceAll_from re k (Some c) t
      | O =>
          match re prev s with
          | Some (S k) => replaceAll_from re k (Some c) t
          | _ => String c (replaceAll_from re 0 (Some c) t)
          end
      end
  end.

Definition replaceAll (re : regex) (s : string) : string :=
  replaceAll_from re 0 None s.

(** *** Building blocks *)

(** Does [s] start with the literal [p], compared through Canonicalize? *)
Fixpoint prefix_ci (p s : string) : bool :=
  match p, s with
  | EmptyString, _ => true
  | String a p', String b s' => Chars.eqb_ci a b && prefix_ci p' s'
  | String _ _, EmptyString => false
  end.

(** Position of the first character satisfying [f]. *)
Fixpoint find_char (f : ascii -> bool) (s : string) : option nat :=
  match s with
  | EmptyString => None
  | String c t => if f c then Some 0 else option_map S (find_char f t)
  end.

(** Length of the longest prefix whose characters satisfy [f]. *)
Fixpoint run_length (f : ascii -> bool) (s : string) : nat :=
  match s with
  | EmptyString => 0
  | String c t => if f c then S (run_length f t) else 0
  end.

Fixpoint drop (n : nat) (s : string) : string :=
  match n, s with
  | O, _ => s
  | S k, EmptyString => EmptyString
  | S k, String _ t => drop k t
  end.

Definition head (s : string) : option ascii :=
  match s with
  | EmptyString => None
  | String c _ => Some c
  end.

(** The character at index [n - 1], the one before position [n]. *)
Definition char_before (prev : option ascii) (n : nat) (s : string)
  : option ascii :=
  match n with
  | O => prev
  | S k => head (drop k s)
  end.

(** [\b] between two neighbouring characters (absent at either end). *)
Definition word_boundary (a b : option ascii) : bool :=
  xorb (match a with Some c => Chars.is_word c | None => false end)
       (match b with Some c => Chars.is_word c | None => false end).

(** *** The expressions of the source *)

(** [/<[^>]*>/]: a [<] up to the first [>] after it. *)
Definition html_tag : regex := fun _ s =>
  match s with
  | String "<"%char t =>
      option_map (fun j => j + 2) (find_char (Ascii.eqb ">"%char) t)
  | _ => None
  end.

(** The character class [Chars.is_dangerous]. *)
Definition dangerous_char : regex := fun _ s =>
  match s with
  | String c _ => if Chars.is_dangerous c then Some 1 else None
  | EmptyString => None
  end.

(** A literal with the [i] flag: [/javascript:/i], [/data:/i]. *)
Definition literal_ci (p : string) : regex := fun _ s =>
  if prefix_ci p s then Some (String.length p) else None.

(** [/on\w+=/i]: the run of word characters is greedy and [=] is not a
    word character, so the [=] has to follow the whole run. *)
Definition event_handler : regex := fun _ s =>
  if prefix_ci "on" s then
    let t := drop 2 s in
    let k := run_length Chars.is_word t in
    if (1 <=? k) && prefix_ci "=" (drop k t) then Some (k + 3) else None
  else None.

Definition spam_keywords : list string :=
  ["viagra"; "casino"; "lottery"; "winner"; "prize"; "click here";
   "buy now"].

(** [/\b(viagra|...|buy now)\b/i]: the alternatives are tried in order. *)
Definition keyword : regex := fun prev s =>
  if word_boundary prev (head s) then
    option_map String.length
      (find (fun kw =>
               prefix_ci kw s &&
               word_boundary (char_before prev (String.length kw) s)
                             (head (drop (String.length kw) s)))
            spam_keywords)
  else None.

(** One [http[s]?:\/\/] at the head of [s], with the [i] flag. *)
Definition url_scheme (s : string) : option nat :=
  if prefix_ci "https://" s then Some 8
  else if prefix_ci "http://" s then Some 7
  else None.

(** How many schemes follow one another from the head of [s], and how
    many characters they take ([fuel] bounds the count). *)
Fixpoint url_schemes (fuel : nat) (s : string) : nat * nat :=
  match fuel with
  | O => (0, 0)
  | S f =>
      match url_scheme s with
      | Some n =>
          let '(k, len) := url_schemes f (drop n s) in (S k, n + len)
      | None => (0, 0)
      end
  end.

(** [/(http[s]?:\/\/){2,}/i]: two or more schemes back to back. *)
Definition multiple_urls : regex := fun _ s =>
  let '(k, len) := url_schemes (String.length s) s in
  if 2 <=? k then Some len else None.

(** [/(.)\1{10,}/i]: a character other than a line terminator followed
    by ten or more characters equal to it up to case. *)
Definition repeated_char : regex := fun _ s =>
  match s with
  | String c t =>
      if Chars.is_line_terminator c then None
      else
        let k := run_length (Chars.eqb_ci c) t in
        if 10 <=? k then Some (S k) else None
  | EmptyString => None
  end.

End Regex.

(* ================================================================= *)
(** ** Input sanitization and the two content checks *)

Fixpoint trimStart (s : string) : string :=
  match s with
  | String c t => if Chars.is_space c then trimStart t else s
  | EmptyString => EmptyString
  end.

Fixpoint trimEnd (s : string) : string :=
  match s with
  | String c t =>
      match trimEnd t with
      | EmptyString => if Chars.is_space c then EmptyString
                       else String c EmptyString
      | t' => String c t'
      end
  | EmptyString => EmptyString
  end.

Definition trim (s : string) : string := trimEnd (trimStart s).

(** [s.slice(0, n)]. *)
Fixpoint slice0 (n : nat) (s : string) : string :=
  match n, s with
  | S k, String c t => String c (slice0 k t)
  | _, _ => EmptyString
  end.

(** [sanitizeInput(str)].  [None] is an absent ([undefined] or [null])
    field; the empty string is the other falsy string input. *)
Definition sanitizeInput (str : option string) : string :=
  match str with
  | None => ""
  | Some "" => ""
  | Some s =>
      Regex.replaceAll (Regex.literal_ci "data:")
        (Regex.replaceAll Regex.event_handler
          (Regex.replaceAll (Regex.literal_ci "javascript:")
            (Regex.replaceAll Regex.dangerous_char
              (Regex.replaceAll Regex.html_tag
                (slice0 1000 (trim s))))))
  end.

Definition rev_string (s : string) : string :=
  string_of_list_ascii (rev (list_ascii_of_string s)).

(** The two character classes of the e-mail expression. *)
Definition is_local_char (c : ascii) : bool :=
  Chars.is_alpha c || Chars.is_digit c ||
  existsb (Ascii.eqb c) ["."; "_"; "%"; "+"; "-"]%char.

Definition is_domain_char (c : ascii) : bool :=
  Chars.is_alpha c || Chars.is_digit c ||
  existsb (Ascii.eqb c) ["."; "-"]%char.

(** [isValidEmail(email)]: the anchored expression
    [^[a-zA-Z0-9._%+-]+@[a-zA-Z0-9.-]+\.[a-zA-Z]{2,}$] and the length
    bound.  Neither class holds [@], so the local part is the run before
    the first [@]; the top-level domain holds no dot, so read from the end
    it is the run of letters, two or more, that a dot precedes. *)
Definition isValidEmail (email : string) : bool :=
  let k := Regex.run_length is_local_char email in
  let domain := rev_string (Regex.drop (S k) email) in
  let tld := Regex.run_length Chars.is_alpha domain in
  let host := Regex.drop (S tld) domain in
  ((1 <=? k)
   && Regex.prefix_ci "@" (Regex.drop k email)
   && (2 <=? tld)
   && Regex.prefix_ci "." (Regex.drop tld domain)
   && (1 <=? String.length host)
   && (Regex.run_length is_domain_char host =? String.length host))
  && (String.length email <=? 254).

(** The three patterns of [isSpam], in the order of the array. *)
Definition spamPatterns : list Regex.regex :=
  [Regex.keyword; Regex.multiple_urls; Regex.repeated_char].

(** [isSpam({ name, subject, message })]. *)
Definition isSpam (name subject message : string) : bool :=
  let content := name ++ " " ++ subject ++ " " ++ message in
  existsb (fun pattern => Regex.test pattern content) spamPatterns.

(* ================================================================= *)
(** ** Messages and the notifier *)

Module Message.

(** One record of [data/messages.json].  [telegramError] is absent on
    a new record ([None]), and afterwards [null] or a string;
    [telegramRetryAt] is absent until a resend. *)
Record t : Type := make {
  id : Z;
  name : string;
  email : string;
  subject : string;
  message : string;
  timestamp : string;
  ip : option string;
  read : bool;
  telegramSent : bool;
  telegramError : option (option string);
  telegramRetryAt : option string
}.

Definition with_status (sent : bool) (err : option string) (m : t) : t :=
  make (id m) (name m) (email m) (subject m) (message m) (timestamp m)
       (ip m) (read m) sent (Some err) (telegramRetryAt m).

Definition with_retry (sent : bool) (err : option string) (at_ : string)
           (m : t) : t :=
  make (id m) (name m) (email m) (subject m) (message m) (timestamp m)
       (ip m) (read m) sent (Some err) (Some at_).

End Message.

(** [escapeMarkdown(text)]: a backslash before each special character. *)
Fixpoint escapeMarkdown (text : string) : string :=
  match text with
  | EmptyString => EmptyString
  | String c t =>
      if Chars.is_markdown_special c
      then String "\"%char (String c (escapeMarkdown t))
      else String c (escapeMarkdown t)
  end.

(** The variable parts of the notification text, in the order in which
    the template of [sendToTelegram] places them between its labels. *)
Record notification : Type := {
  n_name : string;
  n_email : string;
  n_subject : string;
  n_message : string;
  n_time : string
}.

Definition notification_of (messageData : Message.t) : notification :=
  {| n_name := escapeMarkdown (Message.name messageData);
     n_email := escapeMarkdown (Message.email messageData);
     n_subject := escapeMarkdown (Message.subject messageData);
     n_message := escapeMarkdown (Message.message messageData);
     n_time := Message.timestamp messageData |}.

(** What is thrown inside the [try]: by [fetch] (a [TypeError] for a
    request that could not be made, the abort reason of the timeout
    signal) or by [response.json()] (a [SyntaxError]). *)
Record js_error : Type := {
  err_name : string;
  err_code : option string;
  err_message : string
}.

(** What one pass through the [try] block meets. *)
Inductive attempt_outcome : Type :=
| Accepted                               (* [result.ok] is truthy *)
| Rejected (description : option string) (* [result.ok] is falsy *)
| Threw (e : js_error).

(** The object [sendToTelegram] returns.  A key the object literal does
    not have is [None]. *)
Record tg_result : Type := {
  success : bool;
  error : option string;
  isNetworkError : option bool
}.

(** What the handlers do to the outside, in order. *)
Inductive event : Type :=
| EvFetch (attempt : nat) (text : notification)
| EvSleep (ms : nat)
| EvWrite (messages : list Message.t)
| EvWriteFailed.

Definition nat_to_string (n : nat) : string :=
  NilEmpty.string_of_uint (Nat.to_uint n).

(** The test of the [catch] block. *)
Definition is_network_error (e : js_error) : bool :=
  String.eqb (err_name e) "TypeError"
  || String.eqb (err_name e) "AbortError"
  || match err_code e with
     | Some c => String.eqb c "ENOTFOUND" || String.eqb c "ECONNREFUSED"
                 || String.eqb c "ETIMEDOUT"
     | None => false
     end.

Section Notifier.

(** The remote end: what the [n]-th request of a call meets. *)
Variable remote : nat -> attempt_outcome.
Variable text : notification.
Variable retries : nat.

(** The [for] loop from [attempt] on; [left] is [retries + 1 - attempt],
    the number of iterations that [attempt <= retries] still admits.
    The result comes with the requests and delays made on the way. *)
Fixpoint send_loop (left attempt : nat) : tg_result * list event :=
  match left with
  | O =>
      ({| success := false; error := Some "Unknown error";
          isNetworkError := None |}, [])
  | S left' =>
      match remote attempt with
      | Accepted =>
          ({| success := true; error := None; isNetworkError := None |},
           [EvFetch attempt text])
      | Rejected description =>
          ({| success := false; error := description;
              isNetworkError := None |},
           [EvFetch attempt text])
      | Threw e =>
          if is_network_error e && (attempt <? retries) then
            let '(r, evs) := send_loop left' (S attempt) in
            (r, EvFetch attempt text
                  :: EvSleep (2 ^ (attempt - 1) * 1000) :: evs)
          else if attempt =? retries then
            ({| success := false;
                error := Some ("Network error after "
                               ++ nat_to_string retries
                               ++ " attempts: " ++ err_message e);
                isNetworkError := Some true |},
             [EvFetch attempt text])
          else
            let '(r, evs) := send_loop left' (S attempt) in
            (r, EvFetch attempt text :: evs)
      end
  end.

End Notifier.

(** [sendToTelegram(messageData, retries)]; the callers leave [retries]
    at its default, 3. *)
Definition sendToTelegram (remote : nat -> attempt_outcome)
           (messageData : Message.t) (retries : nat)
  : tg_result * list event :=
  send_loop remote (notification_of messageData) retries retries 1.

(* ================================================================= *)
(** ** The message file *)

(** What [fs.readFileSync] followed by [JSON.parse] makes of
    [data/messages.json]: the read throws, the parse throws, or the file
    holds an array of records, the only thing [saveMessages] writes.
    Records are read back as [JSON.stringify] wrote them. *)
Inductive file_state : Type :=
| FileUnreadable
| FileNotJson (raw : string)
| FileJson (messages : list Message.t).

Record state : Type := {
  disk : file_state;
  writes : nat;          (* calls of [fs.writeFileSync] so far *)
  log : list event
}.

(** How a piece of handler code ends. *)
Inductive completion (A : Type) : Type :=
| Returned (a : A)
| Thrown.
Arguments Returned {A} a.
Arguments Thrown {A}.

Definition M (A : Type) : Type := state -> completion A * state.

Definition ret {A} (a : A) : M A := fun st => (Returned a, st).

Definition bind {A B} (m : M A) (k : A -> M B) : M B := fun st =>
  match m st with
  | (Returned a, st') => k a st'
  | (Thrown, st') => (Thrown, st')
  end.

(** [try { body } catch (error) { handler }]. *)
Definition try_catch {A} (body handler : M A) : M A := fun st =>
  match body st with
  | (Returned a, st') => (Returned a, st')
  | (Thrown, st') => handler st'
  end.

Notation "x <- m ;; k" := (bind m (fun x => k))
  (at level 61, m at next level, right associativity).
Notation "m ;;; k" := (bind m (fun _ => k))
  (at level 61, right associativity).

(** An exception raised by an expression that touches no state. *)
Definition throw {A} : M A := fun st => (Thrown, st).

Definition of_option {A} (o : option A) : M A :=
  match o with
  | Some a => ret a
  | None => throw
  end.

Definition emit (evs : list event) : M unit := fun st =>
  (Returned tt,
   {| disk := disk st; writes := writes st; log := (log st ++ evs)%list |}).

(** [readMessages()]: the [catch] turns both failures into the empty
    array. *)
Definition readMessages : M (list Message.t) := fun st =>
  (Returned match disk st with
            | FileJson messages => messages
            | FileUnreadable | FileNotJson _ => []
            end,
   st).

(** [Array.prototype.findIndex], with [None] for -1. *)
Fixpoint findIndex {A} (f : A -> bool) (l : list A) : option nat :=
  match l with
  | [] => None
  | x :: l' => if f x then Some 0 else option_map S (findIndex f l')
  end.

(** Assignment to fields of the element at an index that is in range. *)
Fixpoint update_at {A} (i : nat) (f : A -> A) (l : list A) : list A :=
  match l, i with
  | [], _ => []
  | x :: l', O => f x :: l'
  | x :: l', S j => x :: update_at j f l'
  end.

(** [messages.splice(index, 1)]. *)
Fixpoint remove_at {A} (i : nat) (l : list A) : list A :=
  match l, i with
  | [], _ => []
  | _ :: l', O => l'
  | x :: l', S j => x :: remove_at j l'
  end.

(** [e || null] for a string or [undefined]. *)
Definition or_null (e : option string) : option string :=
  match e with
  | Some "" | None => None
  | Some s => Some s
  end.

(** A string or [undefined] inside a template literal. *)
Definition interpolate (e : option string) : string :=
  match e with
  | Some s => s
  | None => "undefined"
  end.

(** Digits of [parseInt] in a radix up to 16. *)
Definition digit_value (radix : nat) (c : ascii) : option nat :=
  let v :=
    if Chars.is_digit c then Some (Chars.code c - 48)
    else if Chars.in_range 97 102 c then Some (Chars.code c - 87)
    else if Chars.in_range 65 70 c then Some (Chars.code c - 55)
    else None in
  match v with
  | Some d => if d <? radix then Some d else None
  | None => None
  end.

Fixpoint parse_digits (radix : nat) (acc : option Z) (s : string)
  : option Z :=
  match s with
  | EmptyString => acc
  | String c t =>
      match digit_value radix c with
      | Some d =>
          parse_digits radix
            (Some (match acc with Some a => a | None => 0 end
                   * Z.of_nat radix + Z.of_nat d)%Z) t
      | None => acc
      end
  end.

(** [parseInt(s)] with no radix: leading white space, a sign, a [0x]
    prefix, then the longest run of digits; [None] is [NaN].  The values
    are taken exactly, as they are below 2^53. *)
Definition parseInt (s : string) : option Z :=
  let s1 := trimStart s in
  let '(sign, s2) :=
    match s1 with
    | String "-"%char t => ((-1)%Z, t)
    | String "+"%char t => (1%Z, t)
    | _ => (1%Z, s1)
    end in
  let '(radix, s3) :=
    if Regex.prefix_ci "0x" s2 then (16, Regex.drop 2 s2) else (10, s2) in
  option_map (Z.mul sign) (parse_digits radix None s3).

(** [m.id === parseInt(req.params.id)]; nothing is equal to [NaN]. *)
Definition id_matches (param : string) (m : Message.t) : bool :=
  match parseInt param with
  | Some n => Z.eqb (Message.id m) n
  | None => false
  end.

(* ================================================================= *)
(** ** The routes *)

(** The JSON bodies the routes answer with. *)
Inductive body : Type :=
| BError (error : string)
    (* [{ success: false, error }] *)
| BReceived (message : string) (telegramNotified : option bool)
    (* [{ success: true, message }], with [telegramNotified] or without *)
| BList (count : nat) (messages : list Message.t)
    (* [{ success: true, count, messages }] *)
| BMessage (message : Message.t)
    (* [{ success: true, message }] *)
| BInfo (success : bool) (message : string).
    (* [{ success, message }] of the delete and resend routes *)

Record response : Type := { status : nat; json : body }.

Definition body_success (b : body) : bool :=
  match b with
  | BError _ => false
  | BReceived _ _ | BList _ _ | BMessage _ => true
  | BInfo s _ => s
  end.

(** The body of a request to [/api/contact] whose fields are text: each
    one absent or a string. *)
Record contact_body : Type := {
  b_name : option string;
  b_email : option string;
  b_subject : option string;
  b_message : option string
}.

(** A field of [req.body] as [sanitizeInput] meets it.  The body
    parsers hand over any JSON value.  A falsy one ([undefined], [null],
    [false], [0], the empty string) is answered by the guard.  Any other
    value is asked for its [toString()], which returns a string (the
    string itself, the digits of a number, the joined elements of an
    array) or throws, as it does for an object with a [toString] of its
    own that is not a function. *)
Inductive field_value : Type :=
| Falsy
| Prints (text : string)
| Unprintable.

Record request_body : Type := {
  r_name : field_value;
  r_email : field_value;
  r_subject : field_value;
  r_message : field_value
}.

(** [sanitizeInput(str)] on any value: [None] when [str.toString()]
    throws. *)
Definition sanitizeInput_value (str : field_value) : option string :=
  match str with
  | Falsy => Some ""
  | Prints text => Some (sanitizeInput (Some text))
  | Unprintable => None
  end.

(** The process environment, the file system, the clock and the remote
    service, as one request meets them. *)
Record env : Type := {
  env_TELEGRAM_BOT_TOKEN : option string;
  env_TELEGRAM_CHAT_ID : option string;
  write_ok : nat -> bool;   (* does the [n]-th [writeFileSync] succeed? *)
  write_damage : nat -> option string;
                            (* what the [n]-th leaves if it fails *)
  remote : nat -> attempt_outcome;
  Date_now : Z;
  Date_iso : string
}.

Definition required_error : string :=
  "Name, email, and message are required.".
Definition name_error : string :=
  "Name must be between 2 and 100 characters.".
Definition message_error : string :=
  "Message must be between 10 and 1000 characters.".
Definition email_error : string :=
  "Please provide a valid email address.".
Definition thanks : string :=
  "Thank you! Your message has been received.".

Definition is_empty (s : string) : bool :=
  match s with EmptyString => true | _ => false end.

(** The four checks of the contact route on the sanitized fields, in
    their order; the reason of the first one that fails. *)
Definition validate (name email message : string) : option string :=
  if is_empty name || is_empty email || is_empty message then
    Some required_error
  else if (String.length name <? 2) || (100 <? String.length name) then
    Some name_error
  else if (String.length message <? 10) || (1000 <? String.length message)
  then Some message_error
  else if negb (isValidEmail email) then Some email_error
  else None.

Definition token_placeholder : string := "YOUR_BOT_TOKEN_HERE".
Definition chat_placeholder : string := "YOUR_CHAT_ID_HERE".

(** [process.env.X || placeholder]. *)
Definition env_or (v : option string) (placeholder : string) : string :=
  match v with
  | Some s => if is_empty s then placeholder else s
  | None => placeholder
  end.

Definition bad_request (reason : string) : response :=
  {| status := 400; json := BError reason |}.
Definition not_found : response :=
  {| status := 404; json := BError "Message not found" |}.
Definition server_error : response :=
  {| status := 500; json := BError "An error occurred. Please try again." |}.
Definition created (telegramNotified : option bool) : response :=
  {| status := 201; json := BReceived thanks telegramNotified |}.

Definition not_configured : tg_result :=
  {| success := false; error := Some "Not configured";
     isNetworkError := None |}.

(** What a failing [fs.writeFileSync] leaves behind.  It opens the
    file with flag [w]: a failure at the open ([None]) leaves the file as
    it was, and a failure after it leaves the file cut to the part [raw]
    of the new text that was written, possibly nothing, which is never
    JSON, as the closing bracket of the array comes last. *)
Definition after_failed_write (damage : option string) (f : file_state)
  : file_state :=
  match damage with
  | Some raw => FileNotJson raw
  | None => f
  end.

Section Routes.

Variable E : env.

Definition TELEGRAM_BOT_TOKEN : string :=
  env_or (env_TELEGRAM_BOT_TOKEN E) token_placeholder.
Definition TELEGRAM_CHAT_ID : string :=
  env_or (env_TELEGRAM_CHAT_ID E) chat_placeholder.

(** [saveMessages(messages)].  A write that fails throws, and leaves
    the file as [after_failed_write] says. *)
Definition saveMessages (messages : list Message.t) : M unit := fun st =>
  if write_ok E (writes st) then
    (Returned tt,
     {| disk := FileJson messages; writes := S (writes st);
        log := (log st ++ [EvWrite messages])%list |})
  else
    (Thrown,
     {| disk := after_failed_write (write_damage E (writes st)) (disk st);
        writes := S (writes st);
        log := (log st ++ [EvWriteFailed])%list |}).

(** [await sendToTelegram(message)] from a route. *)
Definition awaitTelegram (messageData : Message.t) : M tg_result :=
  let '(r, evs) := sendToTelegram (remote E) messageData 3 in
  emit evs ;;; ret r.

(** The notification step of the contact route: from
    [let telegramResult] to the end of the [if]. *)
Definition notify (newMessage : Message.t) : M tg_result :=
  if negb (String.eqb TELEGRAM_BOT_TOKEN token_placeholder)
     && negb (String.eqb TELEGRAM_CHAT_ID chat_placeholder)
  then
    telegramResult <- awaitTelegram newMessage ;;
    updatedMessages <- readMessages ;;
    match findIndex (fun m => Z.eqb (Message.id m) (Message.id newMessage))
                    updatedMessages with
    | Some msgIndex =>
        saveMessages
          (update_at msgIndex
             (Message.with_status (success telegramResult)
                                  (or_null (error telegramResult)))
             updatedMessages)
    | None => ret tt
    end ;;;
    ret telegramResult
  else ret not_configured.

Definition newMessage_of (name email subject message : string)
           (ip : option string) : Message.t :=
  {| Message.id := Date_now E;
     Message.name := name;
     Message.email := email;
     Message.subject := if is_empty subject then "(No subject)"
                        else subject;
     Message.message := message;
     Message.timestamp := Date_iso E;
     Message.ip := ip;
     Message.read := false;
     Message.telegramSent := false;
     Message.telegramError := None;
     Message.telegramRetryAt := None |}.

(** The contact route from the validation on, on the four sanitized
    fields; [ip] is [req.ip || req.connection.remoteAddress]. *)
Definition contact_sanitized (name email subject message : string)
           (ip : option string) : M response :=
  try_catch
    (match validate name email message with
     | Some reason => ret (bad_request reason)
     | None =>
         if isSpam name subject message then ret (created None)
         else
           let newMessage :=
             newMessage_of name email subject message ip in
           messages <- readMessages ;;
           saveMessages (messages ++ [newMessage])%list ;;;
           telegramResult <- notify newMessage ;;
           ret (created (Some (success telegramResult)))
     end)
    (ret server_error).

(** [POST /api/contact] on a body with text fields. *)
Definition contact (req : contact_body) (ip : option string)
  : M response :=
  contact_sanitized (sanitizeInput (b_name req))
                    (sanitizeInput (b_email req))
                    (sanitizeInput (b_subject req))
                    (sanitizeInput (b_message req)) ip.

(** [POST /api/contact] on whatever [req.body] holds; [None] is a
    request whose body no parser has filled in, where reading a property
    throws.  The route has one [try] block: the four calls of
    [sanitizeInput] stand in it before everything else, so what they
    throw is answered by the same [catch] as in [contact_sanitized]. *)
Definition contact_handler (reqBody : option request_body)
           (ip : option string) : M response :=
  try_catch
    (b <- of_option reqBody ;;
     name <- of_option (sanitizeInput_value (r_name b)) ;;
     email <- of_option (sanitizeInput_value (r_email b)) ;;
     subject <- of_option (sanitizeInput_value (r_subject b)) ;;
     message <- of_option (sanitizeInput_value (r_message b)) ;;
     contact_sanitized name email subject message ip)
    (ret server_error).

(** [GET /api/messages]. *)
Definition listMessages : M response :=
  messages <- readMessages ;;
  ret {| status := 200;
         json := BList (List.length messages) (rev messages) |}.

(** [POST /api/messages/:id/resend-telegram].  An exception here is
    not caught by the route. *)
Definition resendTelegram (param : string) : M response :=
  messages <- readMessages ;;
  match findIndex (id_matches param) messages with
  | None => ret not_found
  | Some msgIndex =>
      if String.eqb TELEGRAM_BOT_TOKEN token_placeholder
         || String.eqb TELEGRAM_CHAT_ID chat_placeholder
      then ret (bad_request "Telegram bot not configured")
      else
        match nth_error messages msgIndex with
        | None => fun st => (Thrown, st)
        | Some message =>
            telegramResult <- awaitTelegram message ;;
            saveMessages
              (update_at msgIndex
                 (Message.with_retry (success telegramResult)
                                     (or_null (error telegramResult))
                                     (Date_iso E))
                 messages) ;;;
            ret {| status := 200;
                   json :=
                     BInfo (success telegramResult)
                       (if success telegramResult
                        then "Message sent to Telegram successfully"
                        else "Failed to send: "
                             ++ interpolate (error telegramResult)) |}
        end
  end.

(** [GET /api/messages/:id]. *)
Definition getMessage (param : string) : M response :=
  messages <- readMessages ;;
  match find (id_matches param) messages with
  | None => ret not_found
  | Some message => ret {| status := 200; json := BMessage message |}
  end.

(** [DELETE /api/messages/:id]. *)
Definition deleteMessage (param : string) : M response :=
  messages <- readMessages ;;
  match findIndex (id_matches param) messages with
  | None => ret not_found
  | Some index =>
      saveMessages (remove_at index messages) ;;;
      ret {| status := 200; json := BInfo true "Message deleted" |}
  end.

End Routes.

(* ================================================================= *)
(** ** The contact form of the page

    The [submit] listener of the page script that tries the local
    backend first and falls back to the worker. *)

(** What [formMessage] shows. *)
Inductive banner : Type :=
| Untouched            (* whatever it held before the submission *)
| Sending              (* "Sending message..." *)
| Sent                 (* "Message sent successfully!" *)
| Failed.              (* "Something went wrong. Please try again." *)

(** Where a request of the listener goes. *)
Inductive target : Type :=
| ToBackend (body : contact_body)    (* [POST /api/contact], JSON *)
| ToWorker (form : contact_body).    (* the worker, the form data *)

(** The page as the listener sees and changes it.  [button_disabled]
    is [None] when the form has no submit button. *)
Record page : Type := {
  shown : banner;
  button_disabled : option bool;
  form_resets : nat;
  timers : list nat;         (* delays of the [setTimeout] calls *)
  requests : list target
}.

(** What the local backend does to the request: [fetch] throws, or
    there is a response whose body is not JSON, or a JSON body with a
    truthy or falsy [success]. *)
Inductive backend_reply : Type :=
| BackendDown
| BackendNotJson (http_ok : bool)
| BackendJson (http_ok : bool) (result_success : bool).

(** What the worker does: likewise, with [ok] and [error]. *)
Inductive worker_reply : Type :=
| WorkerDown
| WorkerNotJson
| WorkerJson (result_ok : bool) (result_error : option string).

(** [hostname === 'localhost' || hostname === '127.0.0.1']. *)
Definition isLocalhost (hostname : string) : bool :=
  String.eqb hostname "localhost" || String.eqb hostname "127.0.0.1".

(** Truthiness of a string or [undefined]. *)
Definition truthy (e : option string) : bool :=
  match e with
  | Some s => negb (is_empty s)
  | None => false
  end.

(** The first inner [try]: [success] after the local backend. *)
Definition local_success (backend : backend_reply) : bool :=
  match backend with
  | BackendJson http_ok result_success => result_success || http_ok
  | BackendDown | BackendNotJson _ => false
  end.

(** The second inner [try]: [success], or the exception thrown on. *)
Definition worker_success (worker : worker_reply) : completion bool :=
  match worker with
  | WorkerDown | WorkerNotJson => Thrown
  | WorkerJson result_ok result_error =>
      if negb result_ok && truthy result_error then Thrown
      else Returned result_ok
  end.

(** The listener, from [e.preventDefault()] to the end of [finally]. *)
Definition submit (hostname : string) (form : contact_body)
           (backend : backend_reply) (worker : worker_reply) (p : page)
  : page :=
  let disabled := option_map (fun _ => true) (button_disabled p) in
  let enabled := option_map (fun _ => false) disabled in
  let '(success, sent) :=
    if isLocalhost hostname
    then (local_success backend, [ToBackend form])
    else (false, []) in
  let '(outcome, sent) :=
    if success then (Returned true, sent)
    else (worker_success worker, (sent ++ [ToWorker form])%list) in
  match outcome with
  | Returned true =>
      {| shown := Sent; button_disabled := enabled;
         form_resets := S (form_resets p);
         timers := (timers p ++ [4000])%list;
         requests := (requests p ++ sent)%list |}
  | Returned false =>
      {| shown := Sending; button_disabled := enabled;
         form_resets := form_resets p; timers := timers p;
         requests := (requests p ++ sent)%list |}
  | Thrown =>
      {| shown := Failed; button_disabled := enabled;
         form_resets := form_resets p; timers := timers p;
         requests := (requests p ++ sent)%list |}
  end.

(** What [fetch] and [response.json()] make of an answer of the
    backend: [response.ok] is a status from 200 to 299. *)
Definition reply_of (r : response) : backend_reply :=
  BackendJson ((200 <=? status r) && (status r <=? 299))
              (body_success (json r)).

Definition fresh_page : page :=
  {| shown := Untouched; button_disabled := Some false; form_resets := 0;
     timers := []; requests := [] |}.

Definition banner_sent (b : banner) : bool :=
  match b with
  | Sent => true
  | Untouched | Sending | Failed => false
  end.

(* ================================================================= *)
(** * Properties *)

(** ** Vocabulary and sample data of the statements *)

Definition configured (E : env) : bool :=
  negb (String.eqb (TELEGRAM_BOT_TOKEN E) token_placeholder)
  && negb (String.eqb (TELEGRAM_CHAT_ID E) chat_placeholder).

(** The array [readMessages] returns in a state. *)
Definition stored (st : state) : list Message.t :=
  match disk st with
  | FileJson messages => messages
  | FileUnreadable | FileNotJson _ => []
  end.

Definition corrupt (f : file_state) : bool :=
  match f with
  | FileJson _ => false
  | FileUnreadable | FileNotJson _ => true
  end.

Definition with_disk (f : file_state) (st : state) : state :=
  {| disk := f; writes := writes st; log := log st |}.

Fixpoint repeat_string (n : nat) (c : ascii) : string :=
  match n with
  | O => EmptyString
  | S k => String c (repeat_string k c)
  end.

Definition spam_request : contact_body :=
  {| b_name := Some "Bob";
     b_email := Some "bob@example.com";
     b_subject := Some "Congratulations";
     b_message := Some "You are the WINNER of our monthly draw" |}.

Definition bare_env : env :=
  {| env_TELEGRAM_BOT_TOKEN := None;
     env_TELEGRAM_CHAT_ID := None;
     write_ok := fun _ => true;
     write_damage := fun _ => None;
     remote := fun _ => Accepted;
     Date_now := 1700000000000%Z;
     Date_iso := "2023-11-14T22:13:20.000Z" |}.

Definition empty_store : state :=
  {| disk := FileJson []; writes := 0; log := [] |}.

Definition plain_email : string := "ann@example.org".
Definition plain_message : string := "hello there, world".

Definition ann_record : Message.t :=
  {| Message.id := 1700000000000%Z;
     Message.name := "Ann";
     Message.email := plain_email;
     Message.subject := "(No subject)";
     Message.message := plain_message;
     Message.timestamp := "2023-11-14T22:13:20.000Z";
     Message.ip := None;
     Message.read := false;
     Message.telegramSent := false;
     Message.telegramError := None;
     Message.telegramRetryAt := None |}.

Definition one_record : state :=
  {| disk := FileJson [ann_record]; writes := 1; log := [] |}.

Definition unparsable_store : state :=
  {| disk := FileNotJson "[{ truncated"; writes := 0; log := [] |}.

Definition live_env (disk_ok : nat -> bool) (service : nat -> attempt_outcome)
  : env :=
  {| env_TELEGRAM_BOT_TOKEN := Some "123456:ABC-DEF";
     env_TELEGRAM_CHAT_ID := Some "987654321";
     write_ok := disk_ok;
     write_damage := fun _ => None;
     remote := service;
     Date_now := 1700000000000%Z;
     Date_iso := "2023-11-14T22:13:20.000Z" |}.

Definition fetch_failed : js_error :=
  {| err_name := "TypeError"; err_code := None;
     err_message := "fetch failed" |}.

Definition plain_request : contact_body :=
  {| b_name := Some "Ann";
     b_email := Some plain_email;
     b_subject := None;
     b_message := Some plain_message |}.

Definition ann_notification : notification :=
  {| n_name := "Ann";
     n_email := "ann@example\.org";
     n_subject := "\(No subject\)";
     n_message := "hello there, world";
     n_time := "2023-11-14T22:13:20.000Z" |}.

Definition accepted_result : tg_result :=
  {| success := true; error := None; isNetworkError := None |}.
Definition rejected_result (description : option string) : tg_result :=
  {| success := false; error := description; isNetworkError := None |}.
Definition exhausted_result (retries : nat) (e : js_error) : tg_result :=
  {| success := false;
     error := Some ("Network error after " ++ nat_to_string retries
                    ++ " attempts: " ++ err_message e);
     isNetworkError := Some true |}.
Definition unknown_result : tg_result :=
  {| success := false; error := Some "Unknown error";
     isNetworkError := None |}.

Fixpoint count_fetches (evs : list event) : nat :=
  match evs with
  | [] => 0
  | EvFetch _ _ :: evs' => S (count_fetches evs')
  | _ :: evs' => count_fetches evs'
  end.

(** What [response.json()] throws on a body that is not JSON. *)
Definition not_json : js_error :=
  {| err_name := "SyntaxError"; err_code := None;
     err_message := "Unexpected token < in JSON at position 0" |}.

(** The number of positions of [s] at which a URL scheme starts. *)
Fixpoint count_schemes (s : string) : nat :=
  (match Regex.url_scheme s with Some _ => 1 | None => 0 end)
  + match s with
    | EmptyString => 0
    | String _ t => count_schemes t
    end.

Definition two_links : string :=
  "see http://a.example and http://b.example today".

Fixpoint all_chars (f : ascii -> bool) (s : string) : bool :=
  match s with
  | EmptyString => true
  | String c t => f c && all_chars f t
  end.

Definition harmless (c : ascii) : bool := negb (Chars.is_dangerous c).

(** The six steps of [sanitizeInput] on a string. *)
Definition sanitize_steps (s : string) : string :=
  Regex.replaceAll (Regex.literal_ci "data:")
    (Regex.replaceAll Regex.event_handler
      (Regex.replaceAll (Regex.literal_ci "javascript:")
        (Regex.replaceAll Regex.dangerous_char
          (Regex.replaceAll Regex.html_tag
            (slice0 1000 (trim s)))))).

(** What a second pass would still change: white space at an end, or
    an occurrence of one of the three deleted patterns. *)
Definition settled (t : string) : bool :=
  String.eqb (trim t) t
  && negb (Regex.test (Regex.literal_ci "javascript:") t)
  && negb (Regex.test Regex.event_handler t)
  && negb (Regex.test (Regex.literal_ci "data:") t).


(** Is every special character of [s] preceded by a backslash?  [prev]
    is the character before [s]. *)
Fixpoint specials_escaped (prev : option ascii) (s : string) : bool :=
  match s with
  | EmptyString => true
  | String c t =>
      (if Chars.is_markdown_special c
       then match prev with
            | Some p => Ascii.eqb p "\"%char
            | None => false
            end
       else true)
      && specials_escaped (Some c) t
  end.

(** The milliseconds slept, and the numbers of the requests made, in a
    list of events. *)
Fixpoint total_sleep (evs : list event) : nat :=
  match evs with
  | [] => 0
  | EvSleep ms :: evs' => ms + total_sleep evs'
  | _ :: evs' => total_sleep evs'
  end.

Fixpoint fetch_attempts (evs : list event) : list nat :=
  match evs with
  | [] => []
  | EvFetch attempt _ :: evs' => attempt :: fetch_attempts evs'
  | _ :: evs' => fetch_attempts evs'
  end.

Fixpoint fetch_texts (evs : list event) : list notification :=
  match evs with
  | [] => []
  | EvFetch _ text :: evs' => text :: fetch_texts evs'
  | _ :: evs' => fetch_texts evs'
  end.

(** The character before the end of [a], where [prev] is the one
    before [a]. *)
Fixpoint last_char (prev : option ascii) (a : string) : option ascii :=
  match a with
  | EmptyString => prev
  | String c t => last_char (Some c) t
  end.

Definition is_word_opt (c : option ascii) : bool :=
  match c with
  | Some x => Chars.is_word x
  | None => false
  end.

(** The 256 code units of the model. *)
Definition all_ascii : list ascii := map ascii_of_nat (seq 0 256).

(** The text [isSpam] runs its patterns on. *)
Definition spam_content (name subject message : string) : string :=
  name ++ " " ++ subject ++ " " ++ message.

(** The fields of a record that are set when it is created; the other
    three are the delivery status. *)
Definition content (m : Message.t)
  : Z * string * string * string * string * string * option string * bool :=
  (Message.id m, Message.name m, Message.email m, Message.subject m,
   Message.message m, Message.timestamp m, Message.ip m, Message.read m).

(** What the checks of the contact route establish of a record. *)
Definition valid_record (m : Message.t) : bool :=
  (2 <=? String.length (Message.name m))
  && (String.length (Message.name m) <=? 100)
  && (10 <=? String.length (Message.message m))
  && (String.length (Message.message m) <=? 1000)
  && isValidEmail (Message.email m)
  && negb (is_empty (Message.subject m))
  && negb (Message.read m).

(** The answer of a route that returned one. *)
Definition answered (c : completion response) : option response :=
  match c with
  | Returned r => Some r
  | Thrown => None
  end.

(** A configured environment whose clock reads half a second later
    than that of [ann_record]. *)
Definition later_env (disk_ok : nat -> bool)
           (service : nat -> attempt_outcome) : env :=
  {| env_TELEGRAM_BOT_TOKEN := Some "123456:ABC-DEF";
     env_TELEGRAM_CHAT_ID := Some "987654321";
     write_ok := disk_ok;
     write_damage := fun _ => None;
     remote := service;
     Date_now := 1700000000500%Z;
     Date_iso := "2023-11-14T22:13:20.500Z" |}.

(** What the resend route answers after the call of the notifier. *)
Definition resend_answer (r : tg_result) : response :=
  {| status := 200;
     json := BInfo (success r)
               (if success r then "Message sent to Telegram successfully"
                else "Failed to send: " ++ interpolate (error r)) |}.

Definition deleted_answer : response :=
  {| status := 200; json := BInfo true "Message deleted" |}.

Definition two_records : state :=
  {| disk := FileJson
       [ann_record;
        newMessage_of (later_env (fun _ => true) (fun _ => Accepted))
          "Bea" plain_email "" plain_message None];
     writes := 2; log := [] |}.

(** The [n]-th write spares the file: it succeeds, or it fails before
    the file is opened. *)
Definition write_spares (E : env) (n : nat) : bool :=
  write_ok E n
  || match write_damage E n with
     | None => true
     | Some _ => false
     end.

(** A text field as a value of the body. *)
Definition as_value (str : option string) : field_value :=
  match str with
  | None => Falsy
  | Some text => if is_empty text then Falsy else Prints text
  end.

Definition as_body (req : contact_body) : request_body :=
  {| r_name := as_value (b_name req);
     r_email := as_value (b_email req);
     r_subject := as_value (b_subject req);
     r_message := as_value (b_message req) |}.

(** The four sanitized fields of a body, when all four calls of
    [sanitizeInput] return. *)
Definition sanitized (reqBody : option request_body)
  : option (string * string * string * string) :=
  match reqBody with
  | None => None
  | Some b =>
      match sanitizeInput_value (r_name b), sanitizeInput_value (r_email b),
            sanitizeInput_value (r_subject b),
            sanitizeInput_value (r_message b) with
      | Some name, Some email, Some subject, Some message =>
          Some (name, email, subject, message)
      | _, _, _, _ => None
      end
  end.

(** A body whose [name] is an object with a [toString] that is not a
    function. *)
Definition odd_body : request_body :=
  {| r_name := Unprintable;
     r_email := Prints plain_email;
     r_subject := Falsy;
     r_message := Prints plain_message |}.

(** [n] characters, [a] and [b] in turn. *)
Fixpoint alternating (n : nat) (a b : ascii) : string :=
  match n with
  | O => EmptyString
  | S k => String a (alternating k b a)
  end.



(** A request with a message of 1001 characters. *)
Definition long_request : contact_body :=
  {| b_name := Some "Ann";
     b_email := Some plain_email;
     b_subject := None;
     b_message := Some (alternating 1001 "a" "b") |}.

Definition long_record : Message.t :=
  {| Message.id := 1700000000000%Z;
     Message.name := "Ann";
     Message.email := plain_email;
     Message.subject := "(No subject)";
     Message.message := alternating 1000 "a" "b";
     Message.timestamp := "2023-11-14T22:13:20.000Z";
     Message.ip := None;
     Message.read := false;
     Message.telegramSent := false;
     Message.telegramError := None;
     Message.telegramRetryAt := None |}.

(** A configured environment in which the writes from the [n]-th on
    fail after the open, leaving the file empty. *)
Definition full_disk_env (n : nat) (service : nat -> attempt_outcome) : env :=
  {| env_TELEGRAM_BOT_TOKEN := Some "123456:ABC-DEF";
     env_TELEGRAM_CHAT_ID := Some "987654321";
     write_ok := fun k => k <? n;
     write_damage := fun _ => Some "";
     remote := service;
     Date_now := 1700000000500%Z;
     Date_iso := "2023-11-14T22:13:20.500Z" |}.

(** ** Reading the routes *)

Lemma readMessages_stored st : readMessages st = (Returned (stored st), st).
Proof. reflexivity. Qed.

Lemma unconfigured_resend E :
  String.eqb (TELEGRAM_BOT_TOKEN E) token_placeholder
  || String.eqb (TELEGRAM_CHAT_ID E) chat_placeholder
  = negb (configured E).
Proof.
  unfold configured.
  destruct (String.eqb (TELEGRAM_BOT_TOKEN E) token_placeholder),
           (String.eqb (TELEGRAM_CHAT_ID E) chat_placeholder); reflexivity.
Qed.

Lemma findIndex_none_iff {A} (f : A -> bool) l :
  findIndex f l = None <-> forall x, In x l -> f x = false.
Proof.
  induction l as [|a l IH]; simpl.
  - split; [intros _ x [] | reflexivity].
  - destruct (f a) eqn:Fa.
    + split; [discriminate|].
      intros H. rewrite (H a) in Fa by auto. discriminate.
    + destruct (findIndex f l); simpl.
      * split; [discriminate|].
        intros H. assert (@Some nat n = None) as X; [|discriminate X].
        apply IH. intros x Hx. apply H. auto.
      * split; [|reflexivity].
        intros _ x [<-|Hx]; [assumption|].
        now apply (proj1 IH).
Qed.

Lemma find_none_iff {A} (f : A -> bool) l :
  find f l = None <-> forall x, In x l -> f x = false.
Proof.
  split.
  - intros H x Hx. exact (find_none f l H x Hx).
  - induction l as [|a l IH]; simpl; [reflexivity|].
    intros H. rewrite (H a) by auto. apply IH. intros x Hx. apply H. auto.
Qed.

Lemma findIndex_last {A} (f : A -> bool) l x :
  f x = true -> exists i, findIndex f (l ++ [x])%list = Some i.
Proof.
  intros Fx. induction l as [|a l [i IH]]; simpl.
  - rewrite Fx. now exists 0.
  - destruct (f a); [now exists 0|].
    rewrite IH. now exists (S i).
Qed.

Lemma bind_saveMessages {A} E messages (k : unit -> M A) st :
  bind (saveMessages E messages) k st
  = if write_ok E (writes st)
    then k tt {| disk := FileJson messages; writes := S (writes st);
                 log := (log st ++ [EvWrite messages])%list |}
    else (Thrown,
          {| disk := after_failed_write (write_damage E (writes st))
                       (disk st);
             writes := S (writes st);
             log := (log st ++ [EvWriteFailed])%list |}).
Proof.
  unfold bind, saveMessages. now destruct (write_ok E (writes st)).
Qed.

(** A request that fails a check, or that is classified as spam, is
    answered without the file being read or written. *)
Lemma contact_rejected E name email subject message ip st reason :
  validate name email message = Some reason ->
  contact_sanitized E name email subject message ip st
  = (Returned (bad_request reason), st).
Proof.
  intros H. unfold contact_sanitized, try_catch. now rewrite H.
Qed.

Lemma length_not_empty s : 1 <= String.length s -> is_empty s = false.
Proof. destruct s; simpl; [lia | reflexivity]. Qed.

(** ** The spam short-circuit *)

(** C2. A submission whose sanitized fields pass the four checks and
    that [isSpam] flags is answered 201 with [success: true] (and no
    [telegramNotified]), and the handler ends in the state it started in:
    the file, the count of writes and the log of writes, requests and
    delays are all as before. *)
Theorem spam_is_acknowledged_and_dropped E req ip st :
  let name := sanitizeInput (b_name req) in
  let email := sanitizeInput (b_email req) in
  let subject := sanitizeInput (b_subject req) in
  let message := sanitizeInput (b_message req) in
  validate name email message = None ->
  isSpam name subject message = true ->
  exists resp,
    contact E req ip st = (Returned resp, st)
    /\ status resp = 201
    /\ body_success (json resp) = true
    /\ json resp = BReceived thanks None.
Proof.
  intros name email subject message Hv Hs.
  exists (created None). repeat split.
  unfold contact, contact_sanitized, try_catch.
  fold name email subject message. now rewrite Hv, Hs.
Qed.

Lemma spam_is_acknowledged_and_dropped_witness :
  exists resp,
    contact bare_env spam_request None empty_store
    = (Returned resp, empty_store)
    /\ status resp = 201
    /\ body_success (json resp) = true
    /\ json resp = BReceived thanks None.
Proof.
  apply (spam_is_acknowledged_and_dropped bare_env spam_request None
           empty_store); vm_compute; reflexivity.
Defined.

(** ** The length checks *)

Lemma validate_name_short name email message :
  is_empty email = false -> is_empty message = false ->
  String.length name = 1 \/ String.length name = 101 ->
  validate name email message = Some name_error.
Proof.
  intros He Hm Hn. unfold validate.
  rewrite (length_not_empty name) by lia. rewrite He, Hm. simpl.
  destruct Hn as [-> | ->]; reflexivity.
Qed.

Lemma validate_message_short name email message :
  is_empty email = false ->
  2 <= String.length name <= 100 ->
  String.length message = 9 \/ String.length message = 1001 ->
  validate name email message = Some message_error.
Proof.
  intros He Hn Hm. unfold validate.
  rewrite (length_not_empty name), (length_not_empty message) by lia.
  rewrite He. simpl.
  replace (String.length name <? 2) with false
    by (symmetry; apply Nat.ltb_ge; lia).
  replace (100 <? String.length name) with false
    by (symmetry; apply Nat.ltb_ge; lia).
  simpl. destruct Hm as [-> | ->]; reflexivity.
Qed.


(** ** Unknown ids *)

(** C10. When the integer parsed from the [:id] parameter ([None] for
    [NaN]) is the id of no stored message, the get, delete and resend
    routes each answer 404 with the error [Message not found], and end in
    the state they started in (no write, no request). *)
Theorem unknown_id_is_not_found E param st :
  (forall m, In m (stored st) -> parseInt param <> Some (Message.id m)) ->
  getMessage param st = (Returned not_found, st)
  /\ deleteMessage E param st = (Returned not_found, st)
  /\ resendTelegram E param st = (Returned not_found, st)
  /\ status not_found = 404
  /\ json not_found = BError "Message not found".
Proof.
  intros H.
  assert (forall m, In m (stored st) -> id_matches param m = false) as Hm.
  { intros m Hin. specialize (H m Hin). unfold id_matches.
    destruct (parseInt param) as [n|]; [|reflexivity].
    apply Z.eqb_neq. congruence. }
  repeat apply conj; try reflexivity.
  - unfold getMessage, bind. rewrite readMessages_stored.
    now rewrite (proj2 (find_none_iff _ _) Hm).
  - unfold deleteMessage, bind. rewrite readMessages_stored.
    now rewrite (proj2 (findIndex_none_iff _ _) Hm).
  - unfold resendTelegram, bind. rewrite readMessages_stored.
    now rewrite (proj2 (findIndex_none_iff _ _) Hm).
Qed.

Lemma unknown_id_is_not_found_witness :
  (getMessage "abc" one_record = (Returned not_found, one_record)
   /\ deleteMessage bare_env "abc" one_record = (Returned not_found, one_record)
   /\ resendTelegram bare_env "abc" one_record
      = (Returned not_found, one_record)
   /\ status not_found = 404
   /\ json not_found = BError "Message not found")
  /\ (getMessage "1700000000001" one_record = (Returned not_found, one_record)
      /\ deleteMessage bare_env "1700000000001" one_record
         = (Returned not_found, one_record)
      /\ resendTelegram bare_env "1700000000001" one_record
         = (Returned not_found, one_record)
      /\ status not_found = 404
      /\ json not_found = BError "Message not found").
Proof.
  split.
  - apply (unknown_id_is_not_found bare_env "abc" one_record).
    intros m [<- | []]. vm_compute. discriminate.
  - apply (unknown_id_is_not_found bare_env "1700000000001" one_record).
    intros m [<- | []]. vm_compute. discriminate.
Defined.

(** ** A file that cannot be read or parsed *)

(** C9. When the file cannot be read, or its content is not JSON,
    [readMessages] returns the empty array, and every route behaves as on
    a file holding the empty array: the list is empty, get, delete and
    resend find nothing, and a submission is answered as on the empty
    file, with the same writes and requests, leaving the same file behind
    once a write has succeeded (and the file as it was when none has). *)
Theorem corrupt_file_reads_as_empty E st :
  corrupt (disk st) = true ->
  let empty := with_disk (FileJson []) st in
  readMessages st = (Returned [], st)
  /\ listMessages st
     = (Returned {| status := 200; json := BList 0 [] |}, st)
  /\ fst (listMessages st) = fst (listMessages empty)
  /\ (forall param,
        getMessage param st = (Returned not_found, st)
        /\ deleteMessage E param st = (Returned not_found, st)
        /\ resendTelegram E param st = (Returned not_found, st)
        /\ fst (getMessage param st) = fst (getMessage param empty)
        /\ fst (deleteMessage E param st) = fst (deleteMessage E param empty)
        /\ fst (resendTelegram E param st)
           = fst (resendTelegram E param empty))
  /\ (forall req ip,
        let '(c, st') := contact E req ip st in
        let '(c0, st0) := contact E req ip empty in
        c = c0 /\ log st' = log st0 /\ writes st' = writes st0
        /\ (disk st' = disk st0
            \/ (disk st' = disk st /\ disk st0 = FileJson []))).
Proof.
  intros Hc empty.
  assert (stored st = []) as Hs.
  { unfold stored. destruct (disk st); [reflexivity..|discriminate]. }
  assert (forall A (k : list Message.t -> M A),
             bind readMessages k st = k [] st) as Hr.
  { intros. unfold bind. now rewrite readMessages_stored, Hs. }
  assert (forall A (k : list Message.t -> M A),
             bind readMessages k empty = k [] empty) as Hr0.
  { reflexivity. }
  split; [now rewrite readMessages_stored, Hs|].
  split; [unfold listMessages; now rewrite Hr|].
  split; [unfold listMessages; now rewrite Hr, Hr0|].
  split.
  - intros param.
    unfold getMessage, deleteMessage, resendTelegram.
    rewrite !Hr, !Hr0. repeat split.
  - intros req ip.
    unfold contact, contact_sanitized, try_catch.
    destruct (validate _ _ _) as [reason|].
    { simpl. repeat split. now right. }
    destruct (isSpam _ _ _).
    { simpl. repeat split. now right. }
    rewrite Hr, Hr0, !bind_saveMessages.
    subst empty. cbn [with_disk writes log disk].
    destruct (write_ok E (writes st)).
    + match goal with
      | |- context [bind ?m ?k ?s] => destruct (bind m k s) as [[r|] s']
      end; repeat split; now left.
    + simpl. repeat split.
      destruct (write_damage E (writes st)); simpl; [now left | now right].
Qed.

Lemma corrupt_file_reads_as_empty_witness :
  readMessages unparsable_store = (Returned [], unparsable_store)
  /\ listMessages unparsable_store
     = (Returned {| status := 200; json := BList 0 [] |}, unparsable_store).
Proof.
  destruct (corrupt_file_reads_as_empty bare_env unparsable_store eq_refl)
    as (H1 & H2 & _).
  exact (conj H1 H2).
Defined.

(** ** The answer of a stored submission *)

Lemma bind_awaitTelegram {A} E m (k : tg_result -> M A) st :
  bind (awaitTelegram E m) k st
  = k (fst (sendToTelegram (remote E) m 3))
      {| disk := disk st; writes := writes st;
         log := (log st ++ snd (sendToTelegram (remote E) m 3))%list |}.
Proof.
  unfold awaitTelegram.
  destruct (sendToTelegram (remote E) m 3) as [r evs]. reflexivity.
Qed.

Lemma notify_unconfigured E m st :
  configured E = false -> notify E m st = (Returned not_configured, st).
Proof.
  intros H. unfold notify. fold (configured E). now rewrite H.
Qed.

(** With the notifier configured and the record in the file, the
    notification step makes its requests and then one write, and ends as
    that write does. *)
Lemma notify_configured E m st i :
  configured E = true ->
  findIndex (fun x => Z.eqb (Message.id x) (Message.id m)) (stored st)
  = Some i ->
  let r := fst (sendToTelegram (remote E) m 3) in
  let evs := snd (sendToTelegram (remote E) m 3) in
  let updated :=
    update_at i (Message.with_status (success r) (or_null (error r)))
              (stored st) in
  notify E m st
  = if write_ok E (writes st)
    then (Returned r,
          {| disk := FileJson updated; writes := S (writes st);
             log := ((log st ++ evs) ++ [EvWrite updated])%list |})
    else (Thrown,
          {| disk := after_failed_write (write_damage E (writes st))
                       (disk st);
             writes := S (writes st);
             log := ((log st ++ evs) ++ [EvWriteFailed])%list |}).
Proof.
  intros Hc Hi r evs updated. unfold notify. fold (configured E).
  rewrite Hc, bind_awaitTelegram.
  unfold bind at 1. rewrite readMessages_stored.
  unfold stored at 1. cbn [disk]. fold (stored st). rewrite Hi.
  fold r evs updated. rewrite bind_saveMessages. cbn [writes disk log].
  now destruct (write_ok E (writes st)).
Qed.

(** The answer to a submission that passes the checks and is not spam,
    once the first write has put the record into the file: 201 with
    [success: true] and [telegramNotified] equal to the [success] of the
    notifier's result, whatever the remote service did; except after a
    configured notifier and a failing status write, which the [catch] of
    the route answers with 500. *)
Lemma contact_answer_once_stored E name email subject message ip st :
  validate name email message = None ->
  isSpam name subject message = false ->
  write_ok E (writes st) = true ->
  let newMessage := newMessage_of E name email subject message ip in
  let telegramResult :=
    if configured E then fst (sendToTelegram (remote E) newMessage 3)
    else not_configured in
  fst (contact_sanitized E name email subject message ip st)
  = Returned
      (if configured E && negb (write_ok E (S (writes st)))
       then server_error
       else created (Some (success telegramResult))).
Proof.
  intros Hv Hs Hw newMessage telegramResult.
  unfold contact_sanitized, try_catch. rewrite Hv, Hs.
  unfold bind at 1. rewrite readMessages_stored.
  rewrite bind_saveMessages, Hw. fold newMessage.
  unfold bind.
  destruct (configured E) eqn:Hc.
  - destruct (findIndex_last
                (fun x => Z.eqb (Message.id x) (Message.id newMessage))
                (stored st) newMessage (Z.eqb_refl _)) as [i Hi].
    match goal with
    | |- context [notify E newMessage ?s] =>
        rewrite (notify_configured E newMessage s i Hc Hi)
    end.
    cbn [writes]. subst telegramResult.
    now destruct (write_ok E (S (writes st))).
  - rewrite (notify_unconfigured E newMessage _ Hc). reflexivity.
Qed.

Lemma contact_answer_once_stored_witness :
  (* the service accepts at once *)
  fst (contact_sanitized (live_env (fun _ => true) (fun _ => Accepted))
         "Ann" plain_email "" plain_message None empty_store)
  = Returned (created (Some true))
  (* the service is never reached *)
  /\ fst (contact_sanitized
            (live_env (fun _ => true) (fun _ => Threw fetch_failed))
            "Ann" plain_email "" plain_message None empty_store)
     = Returned (created (Some false)).
Proof.
  split.
  - apply (contact_answer_once_stored
             (live_env (fun _ => true) (fun _ => Accepted))
             "Ann" plain_email "" plain_message None empty_store);
      reflexivity.
  - apply (contact_answer_once_stored
             (live_env (fun _ => true) (fun _ => Threw fetch_failed))
             "Ann" plain_email "" plain_message None empty_store);
      reflexivity.
Defined.

(** C1, where the code departs from it, against its own comments
    (the first write is commented as one that always works, the answer
    as one that always reports success, the message being saved
    locally).  The request below passes the checks, is not spam, and its
    record is written by the first write; the service accepts the
    notification; the second write, of the delivery status, stands in
    the same [try] and fails at the open, and the answer is 500 with
    [success: false] while the file holds the record. *)
Theorem contact_500_after_record_stored :
  contact (live_env (fun n => n =? 0) (fun _ => Accepted))
          plain_request None empty_store
  = (Returned {| status := 500;
                 json := BError "An error occurred. Please try again." |},
     {| disk := FileJson [ann_record];
        writes := 2;
        log := [EvWrite [ann_record]; EvFetch 1 ann_notification;
                EvWriteFailed] |}).
Proof. vm_compute. reflexivity. Qed.

(** The same when the status write fails after the open: the answer is
    500, and the file, cut by the open, holds no record any more. *)
Lemma contact_500_and_file_cut :
  fst (contact (full_disk_env 1 (fun _ => Accepted)) plain_request None
               empty_store)
  = Returned server_error
  /\ disk (snd (contact (full_disk_env 1 (fun _ => Accepted)) plain_request
                        None empty_store))
     = FileNotJson ""
  /\ In EvWriteFailed
        (log (snd (contact (full_disk_env 1 (fun _ => Accepted))
                           plain_request None empty_store))).
Proof. vm_compute. split; [reflexivity|]. split; [reflexivity|]. auto 6. Qed.

(** ** Placeholder credentials *)

Lemma placeholder_not_configured E :
  TELEGRAM_BOT_TOKEN E = token_placeholder
  \/ TELEGRAM_CHAT_ID E = chat_placeholder ->
  configured E = false.
Proof.
  unfold configured. intros [-> | ->]; rewrite String.eqb_refl; simpl;
    [reflexivity | apply andb_false_r].
Qed.

(** C8, as the code has it. While the token or the chat id is its
    placeholder: the notification step of a submission makes no request
    and no write and hands [{ success: false, error: 'Not configured' }]
    to the rest of the handler, which uses only its [success]; a stored
    submission is therefore answered 201 with [telegramNotified: false],
    after the single write that appends the record as it was created
    ([telegramSent] false, no [telegramError]).  The resend route answers
    404 for an unknown id and otherwise 400 with
    [Telegram bot not configured]; either way it makes no request and no
    write. *)
Theorem placeholder_skips_notifier E :
  TELEGRAM_BOT_TOKEN E = token_placeholder
  \/ TELEGRAM_CHAT_ID E = chat_placeholder ->
  (forall m st, notify E m st = (Returned not_configured, st))
  /\ (forall name email subject message ip st,
        validate name email message = None ->
        isSpam name subject message = false ->
        write_ok E (writes st) = true ->
        let newMessage := newMessage_of E name email subject message ip in
        contact_sanitized E name email subject message ip st
        = (Returned (created (Some false)),
           {| disk := FileJson (stored st ++ [newMessage]);
              writes := S (writes st);
              log := (log st ++ [EvWrite (stored st ++ [newMessage])])%list |})
        /\ Message.telegramSent newMessage = false
        /\ Message.telegramError newMessage = None)
  /\ (forall param st,
        resendTelegram E param st
        = (Returned
             match findIndex (id_matches param) (stored st) with
             | Some _ => bad_request "Telegram bot not configured"
             | None => not_found
             end,
           st)).
Proof.
  intros H. apply placeholder_not_configured in H.
  split; [|split].
  - intros m st. now apply notify_unconfigured.
  - intros name email subject message ip st Hv Hs Hw newMessage.
    split; [|split; reflexivity].
    unfold contact_sanitized, try_catch. rewrite Hv, Hs.
    unfold bind at 1. rewrite readMessages_stored.
    rewrite bind_saveMessages, Hw. fold newMessage.
    unfold bind. now rewrite notify_unconfigured.
  - intros param st. unfold resendTelegram, bind.
    rewrite readMessages_stored, unconfigured_resend, H.
    now destruct (findIndex (id_matches param) (stored st)).
Qed.

Lemma placeholder_skips_notifier_witness :
  notify bare_env ann_record empty_store
  = (Returned not_configured, empty_store)
  /\ resendTelegram bare_env "1700000000000" one_record
     = (Returned (bad_request "Telegram bot not configured"), one_record).
Proof.
  destruct (placeholder_skips_notifier bare_env (or_introl eq_refl))
    as (Hn & _ & Hr).
  split; [apply Hn | apply Hr].
Defined.

(** C8 as stated fails: with no credentials in the environment the
    submission below is stored and answered, and the delivery error is
    recorded nowhere: the record in the file has no [telegramError], the
    answer has no [error], and the one event is the write of the record. *)
Lemma not_configured_is_not_recorded :
  contact bare_env plain_request None empty_store
  = (Returned {| status := 201; json := BReceived thanks (Some false) |},
     {| disk := FileJson [ann_record];
        writes := 1;
        log := [EvWrite [ann_record]] |})
  /\ Message.telegramError ann_record = None.
Proof. vm_compute. split; reflexivity. Qed.

(** ** The notifier *)

Lemma fst_let_pair {A B C} (p : A * B) (f : B -> C) :
  fst (let '(r, evs) := p in (r, f evs)) = fst p.
Proof. now destruct p. Qed.

Section NotifierFacts.

Variable remote : nat -> attempt_outcome.
Variable text : notification.
Variable retries : nat.

(** The four objects the loop can return, and what the remote end did
    for each. *)
Lemma send_loop_result left attempt :
  attempt + left = S retries ->
  let r := fst (send_loop remote text retries left attempt) in
  (r = accepted_result
   /\ exists n, attempt <= n <= retries /\ remote n = Accepted)
  \/ (exists n d, attempt <= n <= retries /\ remote n = Rejected d
                  /\ r = rejected_result d)
  \/ (exists e, remote retries = Threw e /\ r = exhausted_result retries e)
  \/ (left = 0 /\ r = unknown_result).
Proof.
  revert attempt.
  induction left as [|left' IH]; intros attempt Hsum; simpl.
  - right; right; right. split; reflexivity.
  - destruct (remote attempt) as [|d|e] eqn:Hr; simpl.
    + left. split; [reflexivity|]. exists attempt. split; [lia|exact Hr].
    + right; left. exists attempt, d.
      split; [lia|]. split; [exact Hr|reflexivity].
    + assert (attempt <> retries ->
              let r := fst (send_loop remote text retries left'
                                      (S attempt)) in
              (r = accepted_result
               /\ exists n, attempt <= n <= retries /\ remote n = Accepted)
              \/ (exists n d, attempt <= n <= retries
                              /\ remote n = Rejected d
                              /\ r = rejected_result d)
              \/ (exists e, remote retries = Threw e
                            /\ r = exhausted_result retries e)
              \/ (S left' = 0 /\ r = unknown_result)) as Hrec.
      { intros Hne.
        destruct (IH (S attempt) ltac:(lia))
          as [(Ha & n & Hn & Hrn) | [(n & d & Hn & Hrn & Hd)
              | [(e' & He & Hx) | (Hz & _)]]].
        - left. split; [exact Ha|]. exists n. split; [lia|exact Hrn].
        - right; left. exists n, d. split; [lia|]. now split.
        - right; right; left. now exists e'.
        - exfalso. lia. }
      destruct (is_network_error e && (attempt <? retries)) eqn:Hnet.
      * apply andb_true_iff in Hnet as [_ Hlt].
        apply Nat.ltb_lt in Hlt.
        rewrite fst_let_pair. apply Hrec. lia.
      * destruct (attempt =? retries) eqn:Heq.
        -- apply Nat.eqb_eq in Heq. subst attempt.
           right; right; left. exists e. now split.
        -- apply Nat.eqb_neq in Heq.
           rewrite fst_let_pair. now apply Hrec.
Qed.

(** Each iteration makes one request, so there are never more than
    [retries] of them. *)
Lemma send_loop_fetches left attempt :
  count_fetches (snd (send_loop remote text retries left attempt)) <= left.
Proof.
  revert attempt. induction left as [|left' IH]; intros attempt; simpl.
  - lia.
  - specialize (IH (S attempt)).
    destruct (remote attempt) as [|d|e]; simpl; try lia.
    destruct (send_loop remote text retries left' (S attempt))
      as [r evs].
    destruct (is_network_error e && (attempt <? retries)); simpl in *;
      [lia|].
    destruct (attempt =? retries); simpl; lia.
Qed.

End NotifierFacts.

Lemma sendToTelegram_at_most_retries service m retries :
  count_fetches (snd (sendToTelegram service m retries)) <= retries.
Proof. apply send_loop_fetches. Qed.

(** A rejection by the service ends the call at once. *)
Lemma rejection_is_final service m description :
  service 1 = Rejected description ->
  sendToTelegram service m 3
  = (rejected_result description, [EvFetch 1 (notification_of m)]).
Proof. intros H. unfold sendToTelegram. simpl. now rewrite H. Qed.

(** Two failed connections, then success: delays of one and two
    seconds. *)
Lemma network_failures_back_off m :
  sendToTelegram
    (fun n => if n <=? 2 then Threw fetch_failed else Accepted) m 3
  = (accepted_result,
     [EvFetch 1 (notification_of m); EvSleep 1000;
      EvFetch 2 (notification_of m); EvSleep 2000;
      EvFetch 3 (notification_of m)]).
Proof. reflexivity. Qed.

(** C3, where the code departs from it. An exception that the test of
    the [catch] block does not class as a network error does not end the
    call: the loop goes on to the next request, without delay, and after
    the third the result is labelled a network error. *)
Theorem other_failures_are_retried_at_once m :
  is_network_error not_json = false
  /\ sendToTelegram (fun _ => Threw not_json) m 3
     = ({| success := false;
           error := Some "Network error after 3 attempts: Unexpected token < in JSON at position 0";
           isNetworkError := Some true |},
        [EvFetch 1 (notification_of m); EvFetch 2 (notification_of m);
         EvFetch 3 (notification_of m)]).
Proof. split; reflexivity. Qed.

(** C7, as the code has it. [sendToTelegram] always returns, and what it
    returns is one of four objects: [{ success: true }] when a request
    was accepted; [{ success: false, error }] with the description of
    the service when a request was rejected; [{ success: false, error,
    isNetworkError: true }] when the last request threw; and
    [{ success: false, error: 'Unknown error' }] when no request was
    allowed.  So [success] is always there, a failure always has the
    [error] key, and [isNetworkError] is there only in the third.  Awaited
    from a route, the call returns that object, never throws, and leaves
    the file alone. *)
Theorem sendToTelegram_result service m retries :
  let r := fst (sendToTelegram service m retries) in
  ((r = accepted_result
    /\ exists n, 1 <= n <= retries /\ service n = Accepted)
   \/ (exists n d, 1 <= n <= retries /\ service n = Rejected d
                   /\ r = rejected_result d)
   \/ (exists e, service retries = Threw e
                 /\ r = exhausted_result retries e)
   \/ (retries = 0 /\ r = unknown_result))
  /\ (forall E st,
        exists st',
          awaitTelegram E m st
          = (Returned (fst (sendToTelegram (remote E) m 3)), st')
          /\ disk st' = disk st /\ writes st' = writes st).
Proof.
  split.
  - apply send_loop_result. lia.
  - intros E st. unfold awaitTelegram.
    destruct (sendToTelegram (remote E) m 3) as [r evs].
    eexists. split; [reflexivity|]. split; reflexivity.
Qed.

(** C7 as stated fails: the object returned after an accepted request
    is [{ success: true }]; it has no [isNetworkError] (and no [error]). *)
Lemma accepted_result_has_one_key :
  sendToTelegram (fun _ => Accepted) ann_record 3
  = ({| success := true; error := None; isNetworkError := None |},
     [EvFetch 1 ann_notification])
  /\ ~ (exists b : bool,
          isNetworkError
            (fst (sendToTelegram (fun _ => Accepted) ann_record 3))
          = Some b).
Proof.
  split; [reflexivity|]. intros [b H]. discriminate H.
Qed.

(** ** The spam patterns *)

(** C6, where the code departs from it. The second pattern asks for two
    schemes with nothing between them, so a text with two links is not
    flagged: the message below goes through the sanitizer unchanged,
    holds two URL schemes, and [isSpam] answers [false]. *)
Theorem separated_urls_are_not_spam :
  sanitizeInput (Some two_links) = two_links
  /\ count_schemes (("Alice" ++ " ") ++ ("Links" ++ " ") ++ two_links) = 2
  /\ isSpam "Alice" "Links" two_links = false.
Proof. repeat split; reflexivity. Qed.

Example adjacent_schemes_are_spam :
  isSpam "Alice" "Links" "http://https://a.example" = true.
Proof. reflexivity. Qed.

Example buy_now_is_spam :
  isSpam "Alice" "" "you should Buy Now, really" = true.
Proof. reflexivity. Qed.

Example keyword_inside_a_word_is_not_spam :
  isSpam "Alice" "" "the prizes were handed to the winners" = false.
Proof. reflexivity. Qed.

Example twelve_repeats_are_spam :
  isSpam "Alice" "" "hellooooooooooooo there" = true.
Proof. reflexivity. Qed.

Example repeats_are_compared_without_case :
  isSpam "Alice" "" "so aAaAaAaAaAa it goes" = true.
Proof. reflexivity. Qed.

Example ordinary_message_is_not_spam :
  isSpam "Alice" "Hello" plain_message = false.
Proof. reflexivity. Qed.

(** ** The sanitizer *)

Lemma sanitizeInput_steps s : sanitizeInput (Some s) = sanitize_steps s.
Proof. destruct s; reflexivity. Qed.

Section ReplaceAll.

Variable re : Regex.regex.

Lemma replaceAll_from_length skip prev s :
  String.length (Regex.replaceAll_from re skip prev s) <= String.length s.
Proof.
  revert skip prev. induction s as [|c t IH]; intros skip prev; simpl.
  - lia.
  - destruct skip as [|k].
    + destruct (re prev (String c t)) as [[|k]|]; simpl.
      * specialize (IH 0 (Some c)). lia.
      * specialize (IH k (Some c)). lia.
      * specialize (IH 0 (Some c)). lia.
    + specialize (IH k (Some c)). lia.
Qed.

(** Deleting characters brings no new character in. *)
Lemma replaceAll_from_all_chars f skip prev s :
  all_chars f s = true ->
  all_chars f (Regex.replaceAll_from re skip prev s) = true.
Proof.
  revert skip prev. induction s as [|c t IH]; intros skip prev; simpl.
  - reflexivity.
  - intros H. apply andb_true_iff in H as [Hc Ht].
    destruct skip as [|k]; [|now apply IH].
    destruct (re prev (String c t)) as [[|k]|]; simpl;
      rewrite ?Hc; simpl; now apply IH.
Qed.

(** Where the expression matches nowhere, nothing is deleted. *)
Lemma replaceAll_from_no_match prev s :
  Regex.test_from re prev s = false ->
  Regex.replaceAll_from re 0 prev s = s.
Proof.
  revert prev. induction s as [|c t IH]; intros prev; simpl.
  - reflexivity.
  - destruct (re prev (String c t)); [discriminate|].
    intros H. now rewrite IH.
Qed.

End ReplaceAll.

Lemma dangerous_chars_removed prev s :
  all_chars harmless (Regex.replaceAll_from Regex.dangerous_char 0 prev s)
  = true.
Proof.
  revert prev. induction s as [|c t IH]; intros prev; simpl.
  - reflexivity.
  - destruct (Chars.is_dangerous c) eqn:Hc; simpl.
    + apply IH.
    + unfold harmless at 1. rewrite Hc. simpl. apply IH.
Qed.

Lemma harmless_no_html_tag prev s :
  all_chars harmless s = true ->
  Regex.test_from Regex.html_tag prev s = false.
Proof.
  revert prev. induction s as [|c t IH]; intros prev; simpl.
  - reflexivity.
  - intros H. apply andb_true_iff in H as [Hc Ht].
    destruct c as [[] [] [] [] [] [] [] []]; try (now apply IH).
    discriminate Hc.
Qed.

Lemma harmless_no_dangerous_char prev s :
  all_chars harmless s = true ->
  Regex.test_from Regex.dangerous_char prev s = false.
Proof.
  revert prev. induction s as [|c t IH]; intros prev; simpl.
  - reflexivity.
  - intros H. apply andb_true_iff in H as [Hc Ht].
    unfold harmless in Hc. apply negb_true_iff in Hc. rewrite Hc.
    now apply IH.
Qed.

Lemma slice0_length n s : String.length (slice0 n s) <= n.
Proof.
  revert s. induction n as [|k IH]; intros [|c t]; simpl; try lia.
  specialize (IH t). lia.
Qed.

Lemma slice0_short n s : String.length s <= n -> slice0 n s = s.
Proof.
  revert s. induction n as [|k IH]; intros [|c t]; simpl; try reflexivity.
  - lia.
  - intros H. rewrite IH by lia. reflexivity.
Qed.

(** What the sanitizer returns is at most 1000 characters long and
    holds none of the characters of its second step. *)
Lemma sanitize_steps_length s : String.length (sanitize_steps s) <= 1000.
Proof.
  unfold sanitize_steps, Regex.replaceAll.
  repeat (etransitivity; [apply replaceAll_from_length|]).
  apply slice0_length.
Qed.

Lemma sanitize_steps_harmless s : all_chars harmless (sanitize_steps s) = true.
Proof.
  unfold sanitize_steps, Regex.replaceAll.
  do 3 apply replaceAll_from_all_chars.
  apply dangerous_chars_removed.
Qed.

(** The sanitizer leaves alone a string that is short, harmless and
    settled. *)
Lemma sanitize_steps_fixed t :
  String.length t <= 1000 ->
  all_chars harmless t = true ->
  settled t = true ->
  sanitize_steps t = t.
Proof.
  intros Hlen Hsafe Hset. unfold settled in Hset.
  repeat (apply andb_true_iff in Hset as [Hset ?]).
  apply String.eqb_eq in Hset.
  repeat match goal with
         | H : negb _ = true |- _ => apply negb_true_iff in H
         end.
  unfold sanitize_steps, Regex.replaceAll. unfold Regex.test in *.
  rewrite Hset, (slice0_short 1000 t Hlen).
  rewrite (replaceAll_from_no_match Regex.html_tag)
    by now apply harmless_no_html_tag.
  rewrite (replaceAll_from_no_match Regex.dangerous_char)
    by now apply harmless_no_dangerous_char.
  repeat match goal with
         | H : Regex.test_from ?re None t = false |- _ =>
             rewrite (replaceAll_from_no_match re None t H); clear H
         end.
  reflexivity.
Qed.

(** Each step only deletes, so a step that keeps the length keeps the
    string. *)
Lemma trimStart_length s : String.length (trimStart s) <= String.length s.
Proof.
  induction s as [|c t IH]; simpl; [lia|].
  destruct (Chars.is_space c); simpl; lia.
Qed.


Lemma trimEnd_length s : String.length (trimEnd s) <= String.length s.
Proof.
  induction s as [|c t IH]; simpl; [lia|].
  destruct (trimEnd t); simpl in *; [|lia].
  destruct (Chars.is_space c); simpl; lia.
Qed.


Lemma trim_length s : String.length (trim s) <= String.length s.
Proof.
  unfold trim. etransitivity; [apply trimEnd_length|apply trimStart_length].
Qed.


Lemma slice0_le n s : String.length (slice0 n s) <= String.length s.
Proof.
  revert s. induction n as [|k IH]; intros [|c t]; simpl; try lia.
  specialize (IH t). lia.
Qed.










(** Deleting a pattern can also put a new occurrence together. *)
Example deletion_assembles_a_pattern :
  sanitizeInput (Some "jajavascript:vascript:alert") = "javascript:alert"
  /\ sanitizeInput (Some "javascript:alert") = "alert".
Proof. split; reflexivity. Qed.

Example sanitizer_strips_script_tags :
  sanitizeInput (Some "<script>alert(1)</script>") = "alert1".
Proof. reflexivity. Qed.

Example sanitizer_strips_handlers :
  sanitizeInput (Some "onclick=evil()") = "evil".
Proof. reflexivity. Qed.

(* ================================================================= *)
(** ** The length checks, through the sanitizer *)










(** C4 at a raw message of 1001 characters: it passes the checks, is
    answered 201, and the record in the file holds its first 1000
    characters. *)
Lemma long_message_is_cut_and_stored :
  String.length (alternating 1001 "a" "b") = 1001
  /\ contact bare_env long_request None empty_store
     = (Returned {| status := 201; json := BReceived thanks (Some false) |},
        {| disk := FileJson [long_record]; writes := 1;
           log := [EvWrite [long_record]] |})
  /\ String.length (Message.message long_record) = 1000.
Proof. vm_compute. repeat split. Qed.

(** * Further properties of the code *)

(** ** What the sanitizer guarantees *)

(** X1. Whatever the field holds, the sanitized text contains none of
    the ten characters of the second [replace]: angle brackets, double
    and single quote, backquote, semicolon, parentheses and braces. *)
Theorem sanitizeInput_drops_dangerous str :
  all_chars harmless (sanitizeInput str) = true.
Proof.
  destruct str as [s|]; [|reflexivity].
  rewrite sanitizeInput_steps. apply sanitize_steps_harmless.
Qed.

(** X2. The sanitized text is never longer than the input and never
    longer than 1000 characters; an absent or empty field gives the empty
    text. *)
Theorem sanitizeInput_length s :
  String.length (sanitizeInput (Some s)) <= Nat.min 1000 (String.length s)
  /\ sanitizeInput None = ""
  /\ sanitizeInput (Some "") = "".
Proof.
  split; [|split; reflexivity].
  apply Nat.min_glb.
  - rewrite sanitizeInput_steps. apply sanitize_steps_length.
  - rewrite sanitizeInput_steps. unfold sanitize_steps, Regex.replaceAll.
    repeat (etransitivity; [apply replaceAll_from_length|]).
    etransitivity; [apply slice0_le | apply trim_length].
Qed.

(** X3. Text that needs no cleaning comes back as it is: at most 1000
    characters, no white space at either end, none of the ten
    characters, and no occurrence of [javascript:], [data:] or an
    [on...=] handler. *)
Theorem sanitizeInput_keeps_clean_text t :
  String.length t <= 1000 ->
  all_chars harmless t = true ->
  settled t = true ->
  sanitizeInput (Some t) = t.
Proof.
  intros Hlen Hsafe Hset. rewrite sanitizeInput_steps.
  now apply sanitize_steps_fixed.
Qed.

Lemma sanitizeInput_keeps_clean_text_witness :
  sanitizeInput (Some "Hello, I would like a quote for a web site.")
  = "Hello, I would like a quote for a web site.".
Proof.
  apply sanitizeInput_keeps_clean_text; vm_compute; [lia | reflexivity..].
Defined.

(** ** Escaping for Markdown *)

Lemma escapeMarkdown_escaped_from prev s :
  specials_escaped prev (escapeMarkdown s) = true.
Proof.
  revert prev. induction s as [|c t IH]; intros prev; simpl.
  - reflexivity.
  - destruct (Chars.is_markdown_special c) eqn:Hc; simpl.
    + rewrite Hc. simpl. apply IH.
    + rewrite Hc. simpl. apply IH.
Qed.

Lemma escapeMarkdown_length s :
  String.length s <= String.length (escapeMarkdown s) <= 2 * String.length s.
Proof.
  induction s as [|c t IH]; simpl; [lia|].
  destruct (Chars.is_markdown_special c); simpl; lia.
Qed.

(** X4. In the text [escapeMarkdown] returns every special character
    of the Markdown dialect stands directly after a backslash; the text
    is at most twice as long as the input, and text without special
    characters is returned as it is. *)
Theorem escapeMarkdown_escapes_every_special s :
  specials_escaped None (escapeMarkdown s) = true
  /\ String.length s <= String.length (escapeMarkdown s) <= 2 * String.length s
  /\ (all_chars (fun c => negb (Chars.is_markdown_special c)) s = true ->
      escapeMarkdown s = s).
Proof.
  split; [apply escapeMarkdown_escaped_from|].
  split; [apply escapeMarkdown_length|].
  induction s as [|c t IH]; simpl; [reflexivity|].
  intros H. apply andb_true_iff in H as [Hc Ht].
  apply negb_true_iff in Hc. rewrite Hc, IH by assumption. reflexivity.
Qed.

(** X5. [escapeMarkdown] loses nothing: two texts with the same escaped
    form are the same text. *)
Theorem escapeMarkdown_injective a b :
  escapeMarkdown a = escapeMarkdown b -> a = b.
Proof.
  revert b. induction a as [|c a IH]; intros [|d b]; simpl.
  - reflexivity.
  - destruct (Chars.is_markdown_special d); discriminate.
  - destruct (Chars.is_markdown_special c); discriminate.
  - destruct (Chars.is_markdown_special c) eqn:Hc,
             (Chars.is_markdown_special d) eqn:Hd.
    + intros [= -> H]. f_equal. now apply IH.
    + intros [= <- H]. exfalso.
      destruct b as [|e b]; simpl in H; [discriminate|].
      destruct (Chars.is_markdown_special e) eqn:He.
      * injection H as -> _. discriminate Hc.
      * injection H as -> _. congruence.
    + intros [= -> H]. exfalso.
      destruct a as [|e a]; simpl in H; [discriminate|].
      destruct (Chars.is_markdown_special e) eqn:He.
      * injection H as <- _. discriminate Hd.
      * injection H as <- _. congruence.
    + intros [= -> H]. f_equal. now apply IH.
Qed.

Lemma escapeMarkdown_injective_witness :
  "a_b" = "a_b".
Proof.
  apply (escapeMarkdown_injective "a_b" "a_b"). reflexivity.
Defined.

Example backslash_is_not_escaped :
  escapeMarkdown "\*" = "\\*".
Proof. reflexivity. Qed.

(** ** The retry loop *)

Lemma snd_let_pair {A B} (p : A * list B) (pre : list B) :
  snd (let '(r, evs) := p in (r, (pre ++ evs)%list)) = (pre ++ snd p)%list.
Proof. now destruct p. Qed.

Section RetryLoop.

Variable service : nat -> attempt_outcome.
Variable text : notification.
Variable retries : nat.

(** The three ways an iteration that caught an exception goes on. *)
Lemma send_loop_threw left' attempt e :
  service attempt = Threw e ->
  send_loop service text retries (S left') attempt
  = if is_network_error e && (attempt <? retries) then
      (fst (send_loop service text retries left' (S attempt)),
       EvFetch attempt text :: EvSleep (2 ^ (attempt - 1) * 1000)
         :: snd (send_loop service text retries left' (S attempt)))
    else if attempt =? retries then
      (exhausted_result retries e, [EvFetch attempt text])
    else
      (fst (send_loop service text retries left' (S attempt)),
       EvFetch attempt text
         :: snd (send_loop service text retries left' (S attempt))).
Proof.
  intros H. simpl. rewrite H.
  destruct (send_loop service text retries left' (S attempt)) as [r evs].
  reflexivity.
Qed.

Lemma send_loop_success left attempt :
  attempt + left = S retries ->
  success (fst (send_loop service text retries left attempt)) = true
  <-> exists n, attempt <= n <= retries /\ service n = Accepted
                /\ forall k, attempt <= k < n -> exists e, service k = Threw e.
Proof.
  revert attempt. induction left as [|left' IH]; intros attempt Hsum.
  - simpl. split; [discriminate|]. intros (n & Hn & _). lia.
  - assert (forall e, service attempt = Threw e -> attempt < retries ->
              (success (fst (send_loop service text retries left' (S attempt)))
               = true
               <-> exists n, attempt <= n <= retries /\ service n = Accepted
                     /\ forall k, attempt <= k < n ->
                                  exists e, service k = Threw e)) as Hrec.
    { intros e He Hlt. rewrite (IH (S attempt)) by lia. split.
      - intros (n & Hn & Ha & Hk). exists n. split; [lia|]. split; [exact Ha|].
        intros k Hk'. destruct (Nat.eq_dec k attempt) as [->|Hne].
        + now exists e.
        + apply Hk. lia.
      - intros (n & Hn & Ha & Hk). exists n.
        assert (n <> attempt) by (intros ->; congruence).
        split; [lia|]. split; [exact Ha|]. intros k Hk'. apply Hk. lia. }
    destruct (service attempt) as [|d|e] eqn:Hs.
    + simpl. rewrite Hs. simpl. split; [|reflexivity]. intros _.
      exists attempt. split; [lia|]. split; [exact Hs|]. intros k Hk. lia.
    + simpl. rewrite Hs. simpl. split; [discriminate|].
      intros (n & Hn & Ha & Hk).
      destruct (Nat.eq_dec n attempt) as [->|Hne]; [congruence|].
      destruct (Hk attempt ltac:(lia)) as [e He]. congruence.
    + rewrite (send_loop_threw left' attempt e Hs).
      destruct (is_network_error e && (attempt <? retries)) eqn:Hnet.
      * apply andb_true_iff in Hnet as [_ Hlt]. apply Nat.ltb_lt in Hlt.
        simpl. now apply (Hrec e).
      * destruct (attempt =? retries) eqn:Heq.
        -- apply Nat.eqb_eq in Heq. simpl. split; [discriminate|].
           intros (n & Hn & Ha & _). assert (n = attempt) by lia. congruence.
        -- apply Nat.eqb_neq in Heq. simpl. apply (Hrec e); [reflexivity|lia].
Qed.

Lemma send_loop_requests left attempt :
  exists k,
    k <= left /\ (1 <= left -> 1 <= k)
    /\ fetch_attempts (snd (send_loop service text retries left attempt))
       = seq attempt k
    /\ fetch_texts (snd (send_loop service text retries left attempt))
       = repeat text k.
Proof.
  revert attempt. induction left as [|left' IH]; intros attempt.
  - exists 0. simpl. repeat split; lia.
  - destruct (IH (S attempt)) as (k & Hk & _ & Hseq & Htext).
    assert (exists k0, k0 <= S left' /\ (1 <= S left' -> 1 <= k0)
                       /\ seq attempt 1 = seq attempt k0
                       /\ [text] = repeat text k0) as Hone.
    { exists 1. repeat split; lia. }
    destruct (service attempt) as [|d|e] eqn:Hs.
    + simpl. rewrite Hs. exact Hone.
    + simpl. rewrite Hs. exact Hone.
    + rewrite (send_loop_threw left' attempt e Hs).
      destruct (is_network_error e && (attempt <? retries));
        [|destruct (attempt =? retries); [exact Hone|]];
        exists (S k); simpl; rewrite Hseq, Htext; repeat split; lia.
Qed.

Lemma send_loop_sleep left attempt :
  1 <= attempt -> 1 <= left -> attempt + left = S retries ->
  total_sleep (snd (send_loop service text retries left attempt))
  + 2 ^ (attempt - 1) * 1000
  <= 2 ^ (retries - 1) * 1000.
Proof.
  revert attempt. induction left as [|left' IH]; intros attempt H1 Hl Hsum.
  - lia.
  - assert (2 ^ (attempt - 1) <= 2 ^ (retries - 1)) as Hpow
        by (apply Nat.pow_le_mono_r; lia).
    assert (attempt < retries ->
            total_sleep (snd (send_loop service text retries left'
                                        (S attempt)))
            + 2 * (2 ^ (attempt - 1) * 1000) <= 2 ^ (retries - 1) * 1000)
      as Hrec.
    { intros Hlt.
      specialize (IH (S attempt) ltac:(lia) ltac:(lia) ltac:(lia)).
      replace (S attempt - 1) with (S (attempt - 1)) in IH by lia.
      rewrite Nat.pow_succ_r' in IH. lia. }
    destruct (service attempt) as [|d|e] eqn:Hs.
    + simpl. rewrite Hs. simpl. lia.
    + simpl. rewrite Hs. simpl. lia.
    + rewrite (send_loop_threw left' attempt e Hs).
      destruct (is_network_error e && (attempt <? retries)) eqn:Hnet.
      * apply andb_true_iff in Hnet as [_ Hlt]. apply Nat.ltb_lt in Hlt.
        specialize (Hrec Hlt). cbn [snd total_sleep]. lia.
      * destruct (attempt =? retries) eqn:Heq.
        -- simpl. lia.
        -- apply Nat.eqb_neq in Heq.
           specialize (Hrec ltac:(lia)). cbn [snd total_sleep]. lia.
Qed.

End RetryLoop.

(** X6. A call of the notifier succeeds exactly when some request
    within the allowed number is accepted and every request before it
    threw: a rejection, or running out of requests, is final. *)
Theorem sendToTelegram_succeeds_iff service m retries :
  success (fst (sendToTelegram service m retries)) = true
  <-> exists n, 1 <= n <= retries /\ service n = Accepted
                /\ forall k, 1 <= k < n -> exists e, service k = Threw e.
Proof. apply send_loop_success. lia. Qed.

(** X7. The requests of one call are numbered 1, 2, ... without a gap,
    there are at most [retries] of them (and at least one when a request
    is allowed at all), and all carry the same text. *)
Theorem sendToTelegram_requests service m retries :
  exists k,
    k <= retries /\ (1 <= retries -> 1 <= k)
    /\ fetch_attempts (snd (sendToTelegram service m retries)) = seq 1 k
    /\ fetch_texts (snd (sendToTelegram service m retries))
       = repeat (notification_of m) k.
Proof. apply send_loop_requests. Qed.

(** X8. The delays of one call add up to at most 2^(retries-1) - 1
    seconds: with the three requests of the routes, never more than
    three seconds, as no delay follows the last request. *)
Theorem sendToTelegram_total_delay service m retries :
  total_sleep (snd (sendToTelegram service m retries))
  <= (2 ^ (retries - 1) - 1) * 1000
  /\ total_sleep (snd (sendToTelegram service m 3)) <= 3000.
Proof.
  assert (forall r,
             total_sleep (snd (sendToTelegram service m r))
             <= (2 ^ (r - 1) - 1) * 1000) as H.
  { intros r. destruct r as [|r]; [simpl; lia|].
    pose proof (send_loop_sleep service (notification_of m) (S r) (S r) 1
                  ltac:(lia) ltac:(lia) ltac:(lia)) as H.
    pose proof (Nat.pow_nonzero 2 (S r - 1) ltac:(lia)).
    unfold sendToTelegram. change (2 ^ (1 - 1)) with 1 in H. lia. }
  split; [apply H|apply (H 3)].
Qed.

(** ** Strings: prefixes, suffixes and reversal *)

Lemma string_app_assoc (a b c : string) : (a ++ b) ++ c = a ++ (b ++ c).
Proof. induction a as [|x a IH]; simpl; [reflexivity | now rewrite IH]. Qed.

Lemma string_app_length (a b : string) :
  String.length (a ++ b) = String.length a + String.length b.
Proof. induction a as [|x a IH]; simpl; [reflexivity | now rewrite IH]. Qed.

Lemma string_app_nil_r (a : string) : a ++ "" = a.
Proof. induction a as [|x a IH]; simpl; [reflexivity | now rewrite IH]. Qed.

Lemma all_chars_app f (a b : string) :
  all_chars f (a ++ b) = all_chars f a && all_chars f b.
Proof.
  induction a as [|x a IH]; simpl; [reflexivity|].
  now rewrite IH, andb_assoc.
Qed.

Lemma run_length_le f s : Regex.run_length f s <= String.length s.
Proof.
  induction s as [|c t IH]; simpl; [lia|]. destruct (f c); simpl; lia.
Qed.

Lemma run_length_all f s :
  Regex.run_length f s = String.length s <-> all_chars f s = true.
Proof.
  induction s as [|c t IH]; simpl; [tauto|].
  destruct (f c); simpl.
  - rewrite <- IH. split; [intros [= H]; exact H | intros ->; reflexivity].
  - split; discriminate.
Qed.

Lemma run_length_app f a c b :
  all_chars f a = true -> f c = false ->
  Regex.run_length f (a ++ String c b) = String.length a.
Proof.
  intros Ha Hc. induction a as [|x a IH]; simpl in *.
  - now rewrite Hc.
  - apply andb_true_iff in Ha as [-> Ha]. now rewrite IH.
Qed.

Lemma drop_app a b : Regex.drop (String.length a) (a ++ b) = b.
Proof. induction a as [|x a IH]; simpl; [reflexivity | exact IH]. Qed.

Lemma slice0_drop n s : slice0 n s ++ Regex.drop n s = s.
Proof.
  revert s. induction n as [|n IH]; intros [|c t]; simpl; try reflexivity.
  now rewrite IH.
Qed.

Lemma slice0_run f s :
  all_chars f (slice0 (Regex.run_length f s) s) = true
  /\ String.length (slice0 (Regex.run_length f s) s) = Regex.run_length f s.
Proof.
  induction s as [|c t [IH1 IH2]]; simpl; [now split|].
  destruct (f c) eqn:Hc; simpl; [|now split].
  rewrite Hc, IH1, IH2. now split.
Qed.

Lemma drop_succ n s c t :
  Regex.drop n s = String c t -> Regex.drop (S n) s = t.
Proof.
  revert s. induction n as [|n IH]; intros [|x s]; simpl;
    try discriminate.
  - now intros [= _ ->].
  - apply IH.
Qed.

Lemma prefix_ci_char a s :
  Regex.prefix_ci (String a "") s = true ->
  exists c t, s = String c t /\ Chars.eqb_ci a c = true.
Proof.
  destruct s as [|c t]; simpl; [discriminate|].
  rewrite andb_true_r. intros H. now exists c, t.
Qed.

Lemma eqb_ci_at c : Chars.eqb_ci "@" c = true -> c = "@"%char.
Proof.
  destruct c as [[] [] [] [] [] [] [] []]; vm_compute;
    try discriminate; reflexivity.
Qed.

Lemma eqb_ci_dot c : Chars.eqb_ci "." c = true -> c = "."%char.
Proof.
  destruct c as [[] [] [] [] [] [] [] []]; vm_compute;
    try discriminate; reflexivity.
Qed.

Lemma list_of_string_app (a b : string) :
  list_ascii_of_string (a ++ b)
  = (list_ascii_of_string a ++ list_ascii_of_string b)%list.
Proof. induction a as [|x a IH]; simpl; [reflexivity | now rewrite IH]. Qed.

Lemma string_of_list_app (l1 l2 : list ascii) :
  string_of_list_ascii (l1 ++ l2)
  = string_of_list_ascii l1 ++ string_of_list_ascii l2.
Proof. induction l1 as [|x l IH]; simpl; [reflexivity | now rewrite IH]. Qed.

Lemma rev_string_app a b : rev_string (a ++ b) = rev_string b ++ rev_string a.
Proof.
  unfold rev_string.
  now rewrite list_of_string_app, rev_app_distr, string_of_list_app.
Qed.

Lemma rev_string_involutive s : rev_string (rev_string s) = s.
Proof.
  unfold rev_string.
  now rewrite list_ascii_of_string_of_list_ascii, rev_involutive,
    string_of_list_ascii_of_string.
Qed.

Lemma rev_string_char c : rev_string (String c "") = String c "".
Proof. reflexivity. Qed.

Lemma all_chars_forallb f s :
  all_chars f s = forallb f (list_ascii_of_string s).
Proof. induction s as [|c t IH]; simpl; [reflexivity | now rewrite IH]. Qed.

Lemma forallb_rev {A} (f : A -> bool) l : forallb f (rev l) = forallb f l.
Proof.
  induction l as [|x l IH]; simpl; [reflexivity|].
  rewrite forallb_app, IH. simpl. rewrite andb_true_r. apply andb_comm.
Qed.

Lemma all_chars_rev f s : all_chars f (rev_string s) = all_chars f s.
Proof.
  unfold rev_string.
  now rewrite !all_chars_forallb, list_ascii_of_string_of_list_ascii,
    forallb_rev.
Qed.

Lemma string_of_list_length l :
  String.length (string_of_list_ascii l) = List.length l.
Proof. induction l as [|x l IH]; simpl; [reflexivity | now rewrite IH]. Qed.

Lemma list_of_string_length s :
  List.length (list_ascii_of_string s) = String.length s.
Proof. induction s as [|x s IH]; simpl; [reflexivity | now rewrite IH]. Qed.

Lemma rev_string_length s : String.length (rev_string s) = String.length s.
Proof.
  unfold rev_string.
  now rewrite string_of_list_length, length_rev, list_of_string_length.
Qed.

(** ** The e-mail check *)

Lemma isValidEmail_parts email :
  isValidEmail email = true
  <-> exists local host tld,
        email = local ++ "@" ++ host ++ "." ++ tld
        /\ 1 <= String.length local
        /\ all_chars is_local_char local = true
        /\ 1 <= String.length host
        /\ all_chars is_domain_char host = true
        /\ 2 <= String.length tld
        /\ all_chars Chars.is_alpha tld = true
        /\ String.length email <= 254.
Proof.
  unfold isValidEmail. split.
  - intros H.
    apply andb_true_iff in H as [H Hlen].
    apply andb_true_iff in H as [H Hrun].
    apply andb_true_iff in H as [H Hhost].
    apply andb_true_iff in H as [H Hdot].
    apply andb_true_iff in H as [H Htld].
    apply andb_true_iff in H as [Hk Hat].
    set (k := Regex.run_length is_local_char email) in *.
    set (d := Regex.drop (S k) email) in *.
    set (n := Regex.run_length Chars.is_alpha (rev_string d)) in *.
    set (h := Regex.drop (S n) (rev_string d)) in *.
    destruct (prefix_ci_char _ _ Hat) as (c & rest & Hdrop & Hc).
    apply eqb_ci_at in Hc. subst c.
    destruct (prefix_ci_char _ _ Hdot) as (c & rest' & Hdrop' & Hc).
    apply eqb_ci_dot in Hc. subst c.
    assert (d = rest) as Hd by (apply (drop_succ k email "@"%char); exact Hdrop).
    assert (h = rest') as Hh
        by (apply (drop_succ n (rev_string d) "."%char); exact Hdrop').
    exists (slice0 k email), (rev_string h),
           (rev_string (slice0 n (rev_string d))).
    destruct (slice0_run is_local_char email) as [La Ll].
    destruct (slice0_run Chars.is_alpha (rev_string d)) as [Ta Tl].
    fold k in La, Ll. fold n in Ta, Tl.
    split.
    { rewrite <- (slice0_drop k email) at 1. rewrite Hdrop. f_equal.
      simpl. f_equal. rewrite <- Hd.
      rewrite <- (rev_string_involutive d) at 1.
      rewrite <- (slice0_drop n (rev_string d)) at 1.
      rewrite Hdrop', <- Hh.
      change (String "." h) with (String "." "" ++ h).
      rewrite !rev_string_app, rev_string_char, string_app_assoc.
      reflexivity. }
    split; [rewrite Ll; now apply Nat.leb_le|].
    split; [exact La|].
    split; [rewrite rev_string_length; now apply Nat.leb_le|].
    split; [rewrite all_chars_rev; apply run_length_all;
            now apply Nat.eqb_eq|].
    split; [rewrite rev_string_length, Tl; now apply Nat.leb_le|].
    split; [rewrite all_chars_rev; exact Ta|].
    now apply Nat.leb_le.
  - intros (l & h & t & -> & Hl & Hla & Hh & Hha & Ht & Hta & Hlen).
    assert (Regex.run_length is_local_char (l ++ "@" ++ h ++ "." ++ t)
            = String.length l) as Hk
        by (apply run_length_app; [exact Hla | reflexivity]).
    rewrite Hk.
    assert (Regex.drop (S (String.length l)) (l ++ "@" ++ h ++ "." ++ t)
            = h ++ "." ++ t) as Hd
        by (apply (drop_succ _ _ "@"%char); apply drop_app).
    rewrite Hd, drop_app.
    assert (rev_string (h ++ "." ++ t)
            = rev_string t ++ String "." (rev_string h)) as Hrev.
    { change ("." ++ t) with (String "." "" ++ t).
      rewrite !rev_string_app, rev_string_char, string_app_assoc.
      reflexivity. }
    rewrite Hrev.
    assert (Regex.run_length Chars.is_alpha
              (rev_string t ++ String "." (rev_string h))
            = String.length t) as Hn.
    { rewrite <- (rev_string_length t).
      apply run_length_app; [|reflexivity].
      now rewrite all_chars_rev. }
    rewrite Hn.
    assert (Regex.drop (String.length t)
              (rev_string t ++ String "." (rev_string h))
            = String "." (rev_string h)) as Hd1.
    { rewrite <- (rev_string_length t). apply drop_app. }
    rewrite Hd1, (drop_succ _ _ _ _ Hd1), rev_string_length.
    rewrite (proj2 (run_length_all is_domain_char (rev_string h)))
      by now rewrite all_chars_rev.
    rewrite rev_string_length, Nat.eqb_refl.
    repeat (apply andb_true_iff; split); try reflexivity;
      now apply Nat.leb_le.
Qed.

(** X9. [isValidEmail] accepts exactly the texts of at most 254
    characters that read [local@host.tld]: a non-empty local part of
    letters, digits and [._%+-], a non-empty host of letters, digits,
    dots and hyphens, and a top-level domain of two or more letters. *)
Theorem isValidEmail_iff email :
  isValidEmail email = true
  <-> exists local host tld,
        email = local ++ "@" ++ host ++ "." ++ tld
        /\ 1 <= String.length local
        /\ all_chars is_local_char local = true
        /\ 1 <= String.length host
        /\ all_chars is_domain_char host = true
        /\ 2 <= String.length tld
        /\ all_chars Chars.is_alpha tld = true
        /\ String.length email <= 254.
Proof. apply isValidEmail_parts. Qed.

(** X10. An accepted address is between 6 and 254 characters long,
    and is made of letters, digits and the characters [._%+-@] only. *)
Theorem isValidEmail_shape email :
  isValidEmail email = true ->
  6 <= String.length email <= 254
  /\ all_chars (fun c => is_local_char c || Ascii.eqb c "@") email = true.
Proof.
  intros H. apply isValidEmail_parts in H
    as (l & h & t & -> & Hl & Hla & Hh & Hha & Ht & Hta & Hlen).
  split.
  - split; [|exact Hlen].
    repeat first [rewrite string_app_length | progress simpl]. lia.
  - assert (forall f g s, (forall c, f c = true -> g c = true) ->
                          all_chars f s = true -> all_chars g s = true)
      as Hmono.
    { intros f g s Hfg. induction s as [|c s IH]; simpl; [reflexivity|].
      intros Hs. apply andb_true_iff in Hs as [Hc Hs].
      now rewrite (Hfg c Hc), IH. }
    repeat first [rewrite all_chars_app | progress simpl].
    rewrite (Hmono is_local_char _ l), (Hmono is_domain_char _ h),
            (Hmono Chars.is_alpha _ t); try assumption; try reflexivity.
    + intros c Hc. unfold is_local_char. now rewrite Hc.
    + intros c Hc. unfold is_domain_char in Hc. unfold is_local_char.
      apply orb_true_iff in Hc as [Hc|Hc]; [now rewrite Hc|].
      simpl in Hc. rewrite orb_false_r in Hc.
      apply orb_true_iff in Hc as [Hc|Hc];
        apply Ascii.eqb_eq in Hc; subst c; reflexivity.
    + intros c Hc. now rewrite Hc.
Qed.

Lemma isValidEmail_shape_witness :
  6 <= String.length "ann@example.org" <= 254
  /\ all_chars (fun c => is_local_char c || Ascii.eqb c "@")
       "ann@example.org" = true.
Proof. apply isValidEmail_shape. reflexivity. Defined.

(** ** Where the spam patterns match *)

Lemma In_all_ascii c : In c all_ascii.
Proof.
  unfold all_ascii. rewrite <- (ascii_nat_embedding c).
  apply in_map, in_seq. pose proof (nat_ascii_bounded c). lia.
Qed.

Lemma eqb_ci_word k c :
  Chars.eqb_ci k c = true -> Chars.is_word k = true -> Chars.is_word c = true.
Proof.
  assert (forallb (fun k =>
            if Chars.is_word k
            then forallb (fun c =>
                   implb (Chars.eqb_ci k c) (Chars.is_word c)) all_ascii
            else true) all_ascii = true) as H by (vm_compute; reflexivity).
  rewrite forallb_forall in H. specialize (H k (In_all_ascii k)).
  intros Hk Hw. rewrite Hw in H.
  rewrite forallb_forall in H. specialize (H c (In_all_ascii c)).
  rewrite Hk in H. exact H.
Qed.

Lemma eqb_ci_refl c : Chars.eqb_ci c c = true.
Proof. apply Ascii.eqb_refl. Qed.

(** A match at some position is found by the scan, and the scan finds
    nothing else. *)
Lemma test_from_at re prev a s :
  re (last_char prev a) s <> None ->
  Regex.test_from re prev (a ++ s) = true.
Proof.
  revert prev. induction a as [|c a IH]; intros prev H; simpl in *.
  - destruct s; simpl; destruct (re prev _); congruence.
  - destruct (re prev (String c (a ++ s))); [reflexivity|]. now apply IH.
Qed.

Lemma test_from_inv re prev s :
  Regex.test_from re prev s = true ->
  exists a u, s = a ++ u /\ re (last_char prev a) u <> None.
Proof.
  revert prev. induction s as [|c t IH]; intros prev; simpl.
  - destruct (re prev "") eqn:H; [|discriminate].
    intros _. exists "", "". split; [reflexivity|]. simpl. congruence.
  - destruct (re prev (String c t)) eqn:H.
    + intros _. exists "", (String c t). split; [reflexivity|].
      simpl. congruence.
    + intros Ht. destruct (IH _ Ht) as (a & u & -> & Hu).
      exists (String c a), u. split; [reflexivity | exact Hu].
Qed.

Lemma isSpam_content name subject message :
  isSpam name subject message
  = Regex.test Regex.keyword (spam_content name subject message)
    || Regex.test Regex.multiple_urls (spam_content name subject message)
    || Regex.test Regex.repeated_char (spam_content name subject message).
Proof.
  unfold isSpam, spamPatterns, spam_content. simpl.
  now rewrite orb_false_r, orb_assoc.
Qed.

Lemma run_length_repeat f n c b :
  f c = true -> n <= Regex.run_length f (repeat_string n c ++ b).
Proof.
  intros Hc. induction n as [|n IH]; simpl; [lia|]. rewrite Hc. lia.
Qed.

(** X11. A character other than a line break that stands eleven or
    more times in a row anywhere in the name, the subject or the message
    makes the submission spam. *)
Theorem repeated_character_is_spam name subject message pre post c n :
  spam_content name subject message = pre ++ repeat_string n c ++ post ->
  Chars.is_line_terminator c = false ->
  11 <= n ->
  isSpam name subject message = true.
Proof.
  intros Hcontent Hc Hn. rewrite isSpam_content, Hcontent.
  assert (Regex.test Regex.repeated_char (pre ++ repeat_string n c ++ post)
          = true) as ->; [|apply orb_true_r].
  apply test_from_at.
  destruct n as [|n]; [lia|].
  unfold Regex.repeated_char. cbn [repeat_string String.append]. rewrite Hc.
  pose proof (run_length_repeat (Chars.eqb_ci c) n c post (eqb_ci_refl c)).
  destruct (10 <=? Regex.run_length (Chars.eqb_ci c)
                     (repeat_string n c ++ post)) eqn:H10.
  - discriminate.
  - apply Nat.leb_gt in H10. lia.
Qed.

Lemma repeated_character_is_spam_witness :
  isSpam "Ann" "Hi" "wow!!!!!!!!!!!! great" = true.
Proof.
  apply (repeated_character_is_spam "Ann" "Hi" "wow!!!!!!!!!!!! great"
           "Ann Hi wow" " great" "!" 12); [reflexivity | reflexivity | lia].
Defined.

Lemma prefix_ci_length p s :
  Regex.prefix_ci p s = true -> String.length p <= String.length s.
Proof.
  revert s. induction p as [|a p IH]; intros [|b s] H; simpl in *;
    try lia; try discriminate.
  apply andb_true_iff in H as [_ H]. specialize (IH s H). lia.
Qed.

Lemma url_scheme_length u n :
  Regex.url_scheme u = Some n -> 1 <= n <= String.length u.
Proof.
  unfold Regex.url_scheme.
  destruct (Regex.prefix_ci "https://" u) eqn:H8.
  - intros [= <-]. apply prefix_ci_length in H8. simpl in H8. lia.
  - destruct (Regex.prefix_ci "http://" u) eqn:H7; [|discriminate].
    intros [= <-]. apply prefix_ci_length in H7. simpl in H7. lia.
Qed.

Lemma url_schemes_two fuel u :
  2 <= fst (Regex.url_schemes fuel u)
  <-> 2 <= fuel
      /\ exists n n', Regex.url_scheme u = Some n
                      /\ Regex.url_scheme (Regex.drop n u) = Some n'.
Proof.
  destruct fuel as [|[|fuel]]; simpl.
  - split; [lia | intros [H _]; lia].
  - destruct (Regex.url_scheme u); simpl; (split; [lia | intros [H _]; lia]).
  - destruct (Regex.url_scheme u) as [n|] eqn:Hn; simpl.
    + destruct (Regex.url_scheme (Regex.drop n u)) as [n'|] eqn:Hn'; simpl.
      * destruct (Regex.url_schemes fuel (Regex.drop n' (Regex.drop n u))).
        simpl. split; [|lia]. intros _. split; [lia|]. now exists n, n'.
      * split; [lia|]. intros (_ & a & b & [= <-] & Hb). congruence.
    + split; [lia|]. intros (_ & a & b & [=] & _).
Qed.

Lemma drop_length n s :
  String.length (Regex.drop n s) = String.length s - n.
Proof.
  revert s. induction n as [|n IH]; intros [|c s]; simpl; try lia. apply IH.
Qed.

Lemma multiple_urls_matches s :
  Regex.test Regex.multiple_urls s = true
  <-> exists a u n n',
        s = a ++ u
        /\ Regex.url_scheme u = Some n
        /\ Regex.url_scheme (Regex.drop n u) = Some n'.
Proof.
  assert (forall prev u,
             Regex.multiple_urls prev u <> None
             <-> exists n n', Regex.url_scheme u = Some n
                   /\ Regex.url_scheme (Regex.drop n u) = Some n') as Hat.
  { intros prev u. unfold Regex.multiple_urls.
    pose proof (url_schemes_two (String.length u) u) as H2.
    destruct (Regex.url_schemes (String.length u) u) as [k len].
    simpl in H2. split.
    - destruct (2 <=? k) eqn:Hk; [|congruence].
      apply Nat.leb_le in Hk. intros _. now apply H2.
    - intros (n & n' & Hn & Hn').
      assert (2 <= k) as Hk.
      { apply H2. split; [|now exists n, n'].
        pose proof (url_scheme_length _ _ Hn).
        pose proof (url_scheme_length _ _ Hn') as Hl.
        rewrite drop_length in Hl. lia. }
      apply Nat.leb_le in Hk. rewrite Hk. discriminate. }
  unfold Regex.test. split.
  - intros H. destruct (test_from_inv _ _ _ H) as (a & u & -> & Hu).
    apply Hat in Hu as (n & n' & Hn & Hn'). now exists a, u, n, n'.
  - intros (a & u & n & n' & -> & Hn & Hn').
    apply test_from_at. apply Hat. now exists n, n'.
Qed.

(** X12. The pattern for multiple URLs matches exactly the texts in
    which one URL scheme ([http://] or [https://], in any letter case)
    is directly followed by another. *)
Theorem multiple_urls_iff s :
  Regex.test Regex.multiple_urls s = true
  <-> exists a u n n',
        s = a ++ u
        /\ Regex.url_scheme u = Some n
        /\ Regex.url_scheme (Regex.drop n u) = Some n'.
Proof. apply multiple_urls_matches. Qed.

Lemma count_schemes_drop n s :
  count_schemes (Regex.drop n s) <= count_schemes s.
Proof.
  revert s. induction n as [|n IH]; intros s; [simpl; lia|].
  destruct s as [|c s]; [simpl; lia|].
  change (Regex.drop (S n) (String c s)) with (Regex.drop n s).
  specialize (IH s). cbn [count_schemes]. lia.
Qed.

Lemma count_schemes_app a u : count_schemes u <= count_schemes (a ++ u).
Proof.
  induction a as [|c a IH]; [simpl; lia|].
  change (String c a ++ u) with (String c (a ++ u)).
  cbn [count_schemes]. lia.
Qed.

(** X13. A text the URL pattern matches holds at least two URL
    schemes; so a submission with fewer than two is spam only through a
    keyword or a repeated character. *)
Theorem spam_by_urls_needs_two_schemes name subject message :
  isSpam name subject message = true ->
  count_schemes (spam_content name subject message) < 2 ->
  Regex.test Regex.keyword (spam_content name subject message) = true
  \/ Regex.test Regex.repeated_char (spam_content name subject message)
     = true.
Proof.
  rewrite isSpam_content. intros H Hc.
  apply orb_true_iff in H as [H|H]; [|now right].
  apply orb_true_iff in H as [H|H]; [now left|].
  exfalso.
  apply multiple_urls_matches in H as (a & u & n & n' & Hs & Hn & Hn').
  rewrite Hs in Hc.
  pose proof (count_schemes_app a u).
  pose proof (url_scheme_length _ _ Hn) as [Hn1 _].
  destruct u as [|c u]; [discriminate Hn|].
  destruct n as [|n]; [lia|].
  change (Regex.drop (S n) (String c u)) with (Regex.drop n u) in Hn'.
  pose proof (count_schemes_drop n u).
  assert (1 <= count_schemes (Regex.drop n u)).
  { destruct (Regex.drop n u); cbn [count_schemes]; rewrite Hn'; lia. }
  assert (count_schemes (String c u) = 1 + count_schemes u) as Hcu.
  { cbn [count_schemes]. now rewrite Hn. }
  lia.
Qed.

Lemma spam_by_urls_needs_two_schemes_witness :
  Regex.test Regex.keyword (spam_content "Ann" "" "visit http://x.example, a casino")
  = true
  \/ Regex.test Regex.repeated_char
       (spam_content "Ann" "" "visit http://x.example, a casino") = true.
Proof.
  apply spam_by_urls_needs_two_schemes; [reflexivity | vm_compute; lia].
Defined.

Lemma find_not_none {A} (f : A -> bool) l x :
  In x l -> f x = true -> find f l <> None.
Proof.
  induction l as [|a l IH]; simpl; [tauto|].
  intros [->|Hin] Hx.
  - rewrite Hx. discriminate.
  - destruct (f a); [discriminate | now apply IH].
Qed.

Lemma prefix_ci_app p w b :
  Regex.prefix_ci p w = true -> Regex.prefix_ci p (w ++ b) = true.
Proof.
  revert w. induction p as [|a p IH]; intros [|c w]; simpl;
    try reflexivity; try discriminate.
  intros H. apply andb_true_iff in H as [-> H]. now apply IH.
Qed.

Lemma word_boundary_opt a b :
  Regex.word_boundary a b = xorb (is_word_opt a) (is_word_opt b).
Proof. reflexivity. Qed.

Lemma head_last_char prev w b j :
  String.length w = S j ->
  Regex.head (Regex.drop j (w ++ b)) = last_char prev w.
Proof.
  revert prev j. induction w as [|c w IH]; intros prev j; simpl;
    [discriminate|].
  intros [= Hj]. destruct j as [|j].
  - destruct w; [reflexivity | discriminate].
  - simpl. now apply IH.
Qed.

(** Two texts equal up to letter case begin and end with a word
    character together. *)
Lemma ci_equal_ends kw w :
  String.length w = String.length kw ->
  Regex.prefix_ci kw w = true ->
  (is_word_opt (Regex.head kw) = true -> is_word_opt (Regex.head w) = true)
  /\ (forall p q, is_word_opt (last_char p kw) = true ->
                  (is_word_opt p = true -> is_word_opt q = true) ->
                  is_word_opt (last_char q w) = true).
Proof.
  revert w. induction kw as [|k kw IH]; intros [|c w]; simpl;
    try discriminate.
  - intros _ _. split; [discriminate|]. intros p q Hp Hpq. now apply Hpq.
  - intros [= Hlen] H. apply andb_true_iff in H as [Hkc H].
    destruct (IH w Hlen H) as [_ IHlast].
    split; [now apply eqb_ci_word|].
    intros p q Hp _. apply (IHlast (Some k) (Some c) Hp).
    simpl. now apply eqb_ci_word.
Qed.

Lemma spam_keywords_ends kw :
  In kw Regex.spam_keywords ->
  1 <= String.length kw
  /\ is_word_opt (Regex.head kw) = true
  /\ is_word_opt (last_char None kw) = true.
Proof.
  unfold Regex.spam_keywords. simpl.
  intros H. repeat (destruct H as [<-|H]; [repeat split; simpl; lia|]).
  destruct H.
Qed.

(** X14. A keyword of the list, written in any mix of upper and lower
    case, makes the submission spam wherever it stands in the name, the
    subject or the message, provided the characters next to it (if any)
    are not letters, digits or underscores. *)
Theorem delimited_keyword_is_spam name subject message pre w post kw :
  spam_content name subject message = pre ++ w ++ post ->
  In kw Regex.spam_keywords ->
  String.length w = String.length kw ->
  Regex.prefix_ci kw w = true ->
  is_word_opt (last_char None pre) = false ->
  is_word_opt (Regex.head post) = false ->
  isSpam name subject message = true.
Proof.
  intros Hcontent Hin Hlen Hci Hpre Hpost.
  rewrite isSpam_content, Hcontent.
  assert (Regex.test Regex.keyword (pre ++ w ++ post) = true) as ->;
    [|reflexivity].
  apply test_from_at.
  destruct (spam_keywords_ends kw Hin) as (Hk1 & Hkh & Hkl).
  destruct (ci_equal_ends kw w Hlen Hci) as [Hwh Hwl].
  unfold Regex.keyword. rewrite word_boundary_opt, Hpre.
  assert (Regex.head (w ++ post) = Regex.head w) as ->.
  { destruct w; [simpl in Hlen; lia | reflexivity]. }
  rewrite (Hwh Hkh). cbn [xorb].
  match goal with
  | |- option_map _ ?o <> None =>
      assert (o <> None) as Hfind; [|destruct o; [discriminate|congruence]]
  end.
  apply (find_not_none _ _ kw Hin). cbv beta.
  rewrite (prefix_ci_app kw w post Hci), word_boundary_opt. cbn [andb].
  rewrite <- Hlen, drop_app, Hpost.
  destruct (String.length w) as [|j] eqn:Hw; [lia|].
  unfold Regex.char_before.
  rewrite (head_last_char (last_char None pre) w post j Hw).
  rewrite (Hwl None (last_char None pre) Hkl); [reflexivity|].
  discriminate.
Qed.

Lemma delimited_keyword_is_spam_witness :
  isSpam "Ann" "Big news" "Play at our CaSiNo, today!" = true.
Proof.
  apply (delimited_keyword_is_spam "Ann" "Big news"
           "Play at our CaSiNo, today!"
           "Ann Big news Play at our " "CaSiNo" ", today!" "casino");
    try reflexivity.
  simpl. tauto.
Defined.

(** ** What the routes do to the file *)

Lemma content_with_status sent err m :
  content (Message.with_status sent err m) = content m.
Proof. reflexivity. Qed.

Lemma content_with_retry sent err at_ m :
  content (Message.with_retry sent err at_ m) = content m.
Proof. reflexivity. Qed.

Lemma map_update_at {A B} (g : A -> B) (f : A -> A) i l :
  (forall x, g (f x) = g x) -> map g (update_at i f l) = map g l.
Proof.
  intros Hf. revert i. induction l as [|x l IH]; intros [|i]; simpl;
    try reflexivity.
  - now rewrite Hf.
  - now rewrite IH.
Qed.

Lemma forallb_update_at {A} (p : A -> bool) (f : A -> A) i l :
  (forall x, p x = true -> p (f x) = true) ->
  forallb p l = true -> forallb p (update_at i f l) = true.
Proof.
  intros Hf. revert i. induction l as [|x l IH]; intros [|i]; simpl;
    try reflexivity; intros H; apply andb_true_iff in H as [Hx Hl];
    apply andb_true_iff; split; auto.
Qed.

Lemma forallb_remove_at {A} (p : A -> bool) i l :
  forallb p l = true -> forallb p (remove_at i l) = true.
Proof.
  revert i. induction l as [|x l IH]; intros [|i]; simpl;
    try reflexivity; intros H; apply andb_true_iff in H as [Hx Hl]; auto.
  apply andb_true_iff; split; auto.
Qed.

Lemma findIndex_app_left {A} (f : A -> bool) l x i :
  findIndex f l = Some i -> findIndex f (l ++ [x])%list = Some i.
Proof.
  revert i. induction l as [|a l IH]; simpl; [discriminate|].
  intros i. destruct (f a); [trivial|].
  destruct (findIndex f l) as [j|]; [|discriminate].
  intros [= <-]. now rewrite (IH j eq_refl).
Qed.

Lemma findIndex_app_new {A} (f : A -> bool) l x :
  findIndex f l = None -> f x = true ->
  findIndex f (l ++ [x])%list = Some (List.length l).
Proof.
  intros Hl Hx. induction l as [|a l IH]; simpl in *.
  - now rewrite Hx.
  - destruct (f a); [discriminate|].
    destruct (findIndex f l); [discriminate|]. now rewrite IH.
Qed.

Lemma findIndex_lt {A} (f : A -> bool) l i :
  findIndex f l = Some i -> i < List.length l.
Proof.
  revert i. induction l as [|a l IH]; simpl; [discriminate|].
  intros i. destruct (f a); [intros [= <-]; lia|].
  destruct (findIndex f l) as [j|]; [|discriminate].
  intros [= <-]. specialize (IH j eq_refl). lia.
Qed.

Lemma update_at_app_left {A} (f : A -> A) i l x :
  i < List.length l ->
  update_at i f (l ++ [x])%list = (update_at i f l ++ [x])%list.
Proof.
  revert i. induction l as [|a l IH]; intros [|i]; simpl; try lia;
    try reflexivity.
  intros H. now rewrite IH by lia.
Qed.

Lemma update_at_app_new {A} (f : A -> A) l x :
  update_at (List.length l) f (l ++ [x])%list = (l ++ [f x])%list.
Proof. induction l as [|a l IH]; simpl; [reflexivity | now rewrite IH]. Qed.

(** The contact route, step by step, once the checks have passed; [i]
    is where the status update finds the id of the new record. *)
Lemma contact_stored_steps E name email subject message ip st i :
  validate name email message = None ->
  isSpam name subject message = false ->
  let newMessage := newMessage_of E name email subject message ip in
  let r := fst (sendToTelegram (remote E) newMessage 3) in
  let evs := snd (sendToTelegram (remote E) newMessage 3) in
  let appended := (stored st ++ [newMessage])%list in
  let updated :=
    update_at i (Message.with_status (success r) (or_null (error r)))
              appended in
  let st1 := {| disk := FileJson appended; writes := S (writes st);
                log := (log st ++ [EvWrite appended])%list |} in
  findIndex (fun x => Z.eqb (Message.id x) (Message.id newMessage)) appended
  = Some i ->
  contact_sanitized E name email subject message ip st
  = if write_ok E (writes st) then
      if configured E then
        if write_ok E (S (writes st)) then
          (Returned (created (Some (success r))),
           {| disk := FileJson updated; writes := S (S (writes st));
              log := ((log st1 ++ evs) ++ [EvWrite updated])%list |})
        else
          (Returned server_error,
           {| disk := after_failed_write (write_damage E (S (writes st)))
                        (FileJson appended);
              writes := S (S (writes st));
              log := ((log st1 ++ evs) ++ [EvWriteFailed])%list |})
      else (Returned (created (Some false)), st1)
    else
      (Returned server_error,
       {| disk := after_failed_write (write_damage E (writes st)) (disk st);
          writes := S (writes st);
          log := (log st ++ [EvWriteFailed])%list |}).
Proof.
  intros Hv Hs newMessage r evs appended updated st1 Hi.
  unfold contact_sanitized, try_catch. rewrite Hv, Hs.
  unfold bind at 1. rewrite readMessages_stored.
  rewrite bind_saveMessages. fold newMessage appended st1.
  destruct (write_ok E (writes st)); [|reflexivity].
  unfold bind.
  destruct (configured E) eqn:Hc.
  - rewrite (notify_configured E newMessage st1 i Hc Hi).
    fold r evs. cbn [writes st1 stored disk]. fold updated.
    now destruct (write_ok E (S (writes st))).
  - now rewrite (notify_unconfigured E newMessage st1 Hc).
Qed.

Lemma new_record_found E name email subject message ip st :
  exists i,
    findIndex (fun x => Z.eqb (Message.id x)
                 (Message.id (newMessage_of E name email subject message ip)))
      (stored st ++ [newMessage_of E name email subject message ip])%list
    = Some i.
Proof. apply findIndex_last, Z.eqb_refl. Qed.

(** The answers of the route from the checks on. *)
Lemma contact_sanitized_cases E name email subject message ip st :
  exists r st',
    contact_sanitized E name email subject message ip st = (Returned r, st')
    /\ (status r = 201 \/ status r = 400 \/ status r = 500)
    /\ (status r = 400 <-> validate name email message <> None)
    /\ (status r = 500 <->
        validate name email message = None
        /\ isSpam name subject message = false
        /\ (write_ok E (writes st) = false
            \/ (configured E = true
                /\ write_ok E (S (writes st)) = false))).
Proof.
  destruct (validate name email message) as [reason|] eqn:Hv.
  - exists (bad_request reason), st.
    split; [now apply contact_rejected|]. simpl.
    split; [auto|]. split; [split; [discriminate | reflexivity]|].
    split; [discriminate | intros (H & _); discriminate].
  - destruct (isSpam name subject message) eqn:Hs.
    + exists (created None), st. split.
      * unfold contact_sanitized, try_catch. now rewrite Hv, Hs.
      * simpl. split; [auto|].
        split; [split; [discriminate | congruence]|].
        split; [discriminate | intros (_ & H & _); discriminate].
    + destruct (new_record_found E name email subject message ip st)
        as [i Hi].
      rewrite (contact_stored_steps E name email subject message ip st i
                 Hv Hs Hi).
      destruct (write_ok E (writes st)) eqn:Hw1;
        [destruct (configured E);
         [destruct (write_ok E (S (writes st))) eqn:Hw2|]|];
        eexists; eexists; (split; [reflexivity|]); simpl;
        (split; [auto|]);
        (split; [split; [discriminate | congruence]|]);
        (split;
         [try discriminate; intros _; auto
         |try reflexivity;
          intros (_ & _ & [H | [H1 H2]]); discriminate]).
Qed.

Lemma contact_sanitized_returns E name email subject message ip st :
  try_catch (contact_sanitized E name email subject message ip)
            (ret server_error) st
  = contact_sanitized E name email subject message ip st.
Proof.
  destruct (contact_sanitized_cases E name email subject message ip st)
    as (r & st' & H & _).
  unfold try_catch at 1. now rewrite H.
Qed.

Lemma sanitizeInput_as_value str :
  sanitizeInput_value (as_value str) = Some (sanitizeInput str).
Proof.
  destruct str as [[|c t]|]; reflexivity.
Qed.

Lemma contact_handler_steps E b ip st :
  contact_handler E (Some b) ip st
  = match sanitizeInput_value (r_name b), sanitizeInput_value (r_email b),
          sanitizeInput_value (r_subject b),
          sanitizeInput_value (r_message b) with
    | Some name, Some email, Some subject, Some message =>
        contact_sanitized E name email subject message ip st
    | _, _, _, _ => (Returned server_error, st)
    end.
Proof.
  unfold contact_handler. cbn [of_option].
  unfold try_catch at 1, bind at 1, ret at 1.
  destruct (sanitizeInput_value (r_name b)) as [n|]; [|reflexivity].
  cbn [of_option]. unfold bind at 1, ret at 1.
  destruct (sanitizeInput_value (r_email b)) as [e|]; [|reflexivity].
  cbn [of_option]. unfold bind at 1, ret at 1.
  destruct (sanitizeInput_value (r_subject b)) as [s|]; [|reflexivity].
  cbn [of_option]. unfold bind at 1, ret at 1.
  destruct (sanitizeInput_value (r_message b)) as [m|]; [|reflexivity].
  cbn [of_option]. unfold bind at 1, ret at 1.
  apply contact_sanitized_returns.
Qed.

(** On a body with text fields the handler is [contact]. *)
Lemma contact_handler_text E req ip st :
  contact_handler E (Some (as_body req)) ip st = contact E req ip st.
Proof.
  rewrite contact_handler_steps. unfold as_body, contact.
  cbn [r_name r_email r_subject r_message].
  now rewrite !sanitizeInput_as_value.
Qed.

Lemma contact_handler_sanitized E reqBody ip st name email subject message :
  sanitized reqBody = Some (name, email, subject, message) ->
  contact_handler E reqBody ip st
  = contact_sanitized E name email subject message ip st.
Proof.
  destruct reqBody as [b|]; [|discriminate].
  rewrite contact_handler_steps. unfold sanitized.
  destruct (sanitizeInput_value (r_name b)) as [n|]; [|discriminate].
  destruct (sanitizeInput_value (r_email b)) as [e|]; [|discriminate].
  destruct (sanitizeInput_value (r_subject b)) as [s|]; [|discriminate].
  destruct (sanitizeInput_value (r_message b)) as [m|]; [|discriminate].
  now intros [= -> -> -> ->].
Qed.

Lemma contact_handler_unprintable E reqBody ip st :
  sanitized reqBody = None ->
  contact_handler E reqBody ip st = (Returned server_error, st).
Proof.
  destruct reqBody as [b|]; [|reflexivity].
  rewrite contact_handler_steps. unfold sanitized.
  destruct (sanitizeInput_value (r_name b)) as [n|]; [|reflexivity].
  destruct (sanitizeInput_value (r_email b)) as [e|]; [|reflexivity].
  destruct (sanitizeInput_value (r_subject b)) as [s|]; [|reflexivity].
  destruct (sanitizeInput_value (r_message b)) as [m|]; [|reflexivity].
  discriminate.
Qed.

(** X15. The handler of the contact route, on whatever values the four
    fields of the body hold, always answers, with 201, 400 or 500 and
    nothing else.  It answers 400 exactly when the four fields can be
    sanitized and one of the checks fails.  It answers 500 exactly when
    the body or one of the fields cannot be turned into text, or when
    the submission passed the checks, is not spam, and the write of the
    record or, with the notifier configured, the write of the delivery
    status has failed.  In the first of these cases nothing is read,
    written or sent. *)
Theorem contact_answers E reqBody ip st :
  exists r st',
    contact_handler E reqBody ip st = (Returned r, st')
    /\ (status r = 201 \/ status r = 400 \/ status r = 500)
    /\ (status r = 400 <->
        exists name email subject message,
          sanitized reqBody = Some (name, email, subject, message)
          /\ validate name email message <> None)
    /\ (status r = 500 <->
        sanitized reqBody = None
        \/ exists name email subject message,
             sanitized reqBody = Some (name, email, subject, message)
             /\ validate name email message = None
             /\ isSpam name subject message = false
             /\ (write_ok E (writes st) = false
                 \/ (configured E = true
                     /\ write_ok E (S (writes st)) = false)))
    /\ (sanitized reqBody = None -> r = server_error /\ st' = st).
Proof.
  destruct (sanitized reqBody) as [[[[name email] subject] message]|] eqn:Hb.
  - destruct (contact_sanitized_cases E name email subject message ip st)
      as (r & st' & H & H1 & H4 & H5).
    exists r, st'.
    rewrite (contact_handler_sanitized E reqBody ip st _ _ _ _ Hb).
    split; [exact H|]. split; [exact H1|]. split; [|split].
    + split.
      * intros Hs. exists name, email, subject, message.
        split; [reflexivity | now apply H4].
      * intros (n & e & s & m & [= <- <- <- <-] & Hv). now apply H4.
    + split.
      * intros Hs. right. exists name, email, subject, message.
        split; [reflexivity | now apply H5].
      * intros [Hn | (n & e & s & m & [= <- <- <- <-] & Hv)];
          [discriminate | now apply H5].
    + discriminate.
  - exists server_error, st.
    rewrite (contact_handler_unprintable E reqBody ip st Hb).
    split; [reflexivity|]. simpl. split; [auto|]. split; [|split].
    + split; [discriminate | intros (n & e & s & m & Hn & _); discriminate].
    + split; [now left | reflexivity].
    + now split.
Qed.

Lemma contact_answers_witness :
  contact_handler bare_env (Some odd_body) None empty_store
  = (Returned server_error, empty_store).
Proof.
  destruct (contact_answers bare_env (Some odd_body) None empty_store)
    as (r & st' & H & _ & _ & _ & Hn).
  destruct (Hn eq_refl) as [Hr Hst]. rewrite Hr, Hst in H. exact H.
Defined.

Lemma stored_after_failed_write damage f w lg :
  stored {| disk := after_failed_write damage f; writes := w; log := lg |}
  = match damage with
    | Some _ => []
    | None => stored {| disk := f; writes := w; log := lg |}
    end.
Proof. now destruct damage. Qed.

Lemma write_spares_cases E n :
  write_spares E n = true ->
  write_ok E n = true \/ (write_ok E n = false /\ write_damage E n = None).
Proof.
  unfold write_spares. destruct (write_ok E n); [now left|].
  destruct (write_damage E n); [discriminate | now right].
Qed.

Lemma contact_content E name email subject message ip st :
  validate name email message = None ->
  isSpam name subject message = false ->
  write_ok E (writes st) = true ->
  (configured E = true -> write_spares E (S (writes st)) = true) ->
  map content
    (stored (snd (contact_sanitized E name email subject message ip st)))
  = (map content (stored st)
     ++ [content (newMessage_of E name email subject message ip)])%list.
Proof.
  intros Hv Hs Hw Hw2.
  destruct (new_record_found E name email subject message ip st) as [i Hi].
  rewrite (contact_stored_steps E name email subject message ip st i
             Hv Hs Hi), Hw.
  destruct (configured E); [|cbn [snd stored disk]; apply map_app].
  destruct (write_spares_cases E _ (Hw2 eq_refl)) as [H2 | [H2 Hd]];
    rewrite H2; cbn [snd].
  - cbn [stored disk].
    rewrite map_update_at by apply content_with_status. apply map_app.
  - rewrite stored_after_failed_write, Hd. cbn [stored disk]. apply map_app.
Qed.

(** X16. Unless a write fails after opening the file, a submission
    never changes what was stored of earlier messages.  When a check
    fails or the text is spam, the whole state is as before.  When the
    submission passes, its first write succeeds and the status write (made
    only when the notifier is configured) succeeds or fails at the open,
    the file afterwards holds the earlier records with their id, sender,
    text, time, address and [read] flag as before, followed by one new
    record.  A first write that fails leaves what [fs.writeFileSync] left:
    the file as it was when the open failed, and otherwise a cut text that
    no longer parses, so that every earlier record is lost to
    [readMessages]; and a status write that fails after the open loses
    the earlier records and the new one alike. *)
Theorem contact_appends_one_record E name email subject message ip st :
  let st' := snd (contact_sanitized E name email subject message ip st) in
  (validate name email message <> None \/ isSpam name subject message = true ->
   st' = st)
  /\ (validate name email message = None ->
      isSpam name subject message = false ->
      write_ok E (writes st) = true ->
      (configured E = true -> write_spares E (S (writes st)) = true) ->
      map content (stored st')
      = (map content (stored st)
         ++ [content (newMessage_of E name email subject message ip)])%list)
  /\ (validate name email message = None ->
      isSpam name subject message = false ->
      write_ok E (writes st) = false ->
      disk st' = after_failed_write (write_damage E (writes st)) (disk st)
      /\ (write_damage E (writes st) = None -> stored st' = stored st)
      /\ (write_damage E (writes st) <> None -> stored st' = []))
  /\ (validate name email message = None ->
      isSpam name subject message = false ->
      write_ok E (writes st) = true ->
      configured E = true ->
      write_ok E (S (writes st)) = false ->
      write_damage E (S (writes st)) <> None ->
      stored st' = []).
Proof.
  intros st'. subst st'.
  split; [|split; [apply contact_content|split]].
  - destruct (validate name email message) as [reason|] eqn:Hv.
    + now rewrite (contact_rejected _ _ _ _ _ _ _ _ Hv).
    + intros [H|H]; [congruence|].
      unfold contact_sanitized, try_catch. now rewrite Hv, H.
  - intros Hv Hs Hw.
    destruct (new_record_found E name email subject message ip st) as [i Hi].
    rewrite (contact_stored_steps E name email subject message ip st i
               Hv Hs Hi), Hw.
    cbn [snd disk]. split; [reflexivity|].
    rewrite stored_after_failed_write.
    destruct (write_damage E (writes st)); split;
      try reflexivity; try discriminate; intros H; now elim H.
  - intros Hv Hs Hw Hc Hw2 Hd.
    destruct (new_record_found E name email subject message ip st) as [i Hi].
    rewrite (contact_stored_steps E name email subject message ip st i
               Hv Hs Hi), Hw, Hc, Hw2.
    cbn [snd]. rewrite stored_after_failed_write.
    destruct (write_damage E (S (writes st))); [reflexivity | now elim Hd].
Qed.

Lemma contact_appends_one_record_witness :
  (* stored, with a status write that succeeds *)
  map content
    (stored (snd (contact_sanitized
                    (later_env (fun _ => true) (fun _ => Accepted))
                    "Bea" plain_email "" plain_message None one_record)))
  = [content ann_record;
     content (newMessage_of (later_env (fun _ => true) (fun _ => Accepted))
                "Bea" plain_email "" plain_message None)]
  (* a first write that fails after the open *)
  /\ stored (snd (contact_sanitized (full_disk_env 0 (fun _ => Accepted))
                    "Bea" plain_email "" plain_message None one_record))
     = [].
Proof.
  split.
  - apply (proj1 (proj2 (contact_appends_one_record
                           (later_env (fun _ => true) (fun _ => Accepted))
                           "Bea" plain_email "" plain_message None
                           one_record)));
      reflexivity.
  - apply (proj1 (proj2 (proj2 (contact_appends_one_record
                           (full_disk_env 0 (fun _ => Accepted))
                           "Bea" plain_email "" plain_message None
                           one_record))));
      try reflexivity.
    discriminate.
Defined.

Lemma findIndex_nth {A} (f : A -> bool) l i :
  findIndex f l = Some i ->
  exists x, nth_error l i = Some x /\ f x = true
            /\ find f l = Some x.
Proof.
  revert i. induction l as [|a l IH]; simpl; [discriminate|].
  intros i. destruct (f a) eqn:Fa.
  - intros [= <-]. now exists a.
  - destruct (findIndex f l) as [j|]; [|discriminate].
    intros [= <-]. destruct (IH j eq_refl) as (x & Hn & Hx & Hf).
    now exists x.
Qed.

Lemma findIndex_some_iff {A} (f : A -> bool) l :
  (exists i, findIndex f l = Some i) <-> exists x, In x l /\ f x = true.
Proof.
  split.
  - intros [i Hi]. destruct (findIndex_nth f l i Hi) as (x & Hn & Hx & _).
    exists x. split; [now apply nth_error_In with i | exact Hx].
  - intros (x & Hin & Hx).
    destruct (findIndex f l) as [i|] eqn:Hi; [now exists i|].
    rewrite findIndex_none_iff in Hi. rewrite (Hi x Hin) in Hx. discriminate.
Qed.

(** X17. With the notifier configured, both writes succeeding and no
    earlier record carrying the same id, a stored submission ends with
    the file holding the earlier records unchanged and, last, the new
    record marked with the outcome: [telegramSent] is the [success] of
    the notifier and [telegramError] its error or [null]; the answer
    reports the same [success]. *)
Theorem contact_records_delivery E name email subject message ip st :
  validate name email message = None ->
  isSpam name subject message = false ->
  configured E = true ->
  write_ok E (writes st) = true ->
  write_ok E (S (writes st)) = true ->
  (forall m, In m (stored st) -> Message.id m <> Date_now E) ->
  let newMessage := newMessage_of E name email subject message ip in
  let r := fst (sendToTelegram (remote E) newMessage 3) in
  fst (contact_sanitized E name email subject message ip st)
  = Returned (created (Some (success r)))
  /\ disk (snd (contact_sanitized E name email subject message ip st))
     = FileJson (stored st
                 ++ [Message.with_status (success r) (or_null (error r))
                       newMessage])%list.
Proof.
  intros Hv Hs Hc Hw1 Hw2 Hfresh newMessage r.
  assert (findIndex (fun x => Z.eqb (Message.id x) (Message.id newMessage))
            (stored st ++ [newMessage])%list
          = Some (List.length (stored st))) as Hi.
  { apply findIndex_app_new; [|apply Z.eqb_refl].
    apply findIndex_none_iff. intros x Hx. apply Z.eqb_neq.
    now apply Hfresh. }
  rewrite (contact_stored_steps E name email subject message ip st _
             Hv Hs Hi).
  rewrite Hw1, Hc, Hw2. cbn [fst snd disk].
  now rewrite update_at_app_new.
Qed.

Lemma contact_records_delivery_witness :
  fst (contact_sanitized (later_env (fun _ => true) (fun _ => Accepted))
         "Bea" plain_email "" plain_message None one_record)
  = Returned (created (Some true))
  /\ disk (snd (contact_sanitized
                  (later_env (fun _ => true) (fun _ => Accepted))
                  "Bea" plain_email "" plain_message None one_record))
     = FileJson
         [ann_record;
          Message.with_status true None
            (newMessage_of (later_env (fun _ => true) (fun _ => Accepted))
               "Bea" plain_email "" plain_message None)].
Proof.
  apply (contact_records_delivery
           (later_env (fun _ => true) (fun _ => Accepted))
           "Bea" plain_email "" plain_message None one_record);
    try reflexivity.
  intros m [<- | []]. discriminate.
Defined.

(** X18. The status update looks the record up by id, and the id is
    the clock reading.  When an earlier record already carries that
    reading, the outcome of the delivery is written to that earlier
    record, and the new record stays as created, with [telegramSent]
    false. *)
Theorem contact_id_collision E name email subject message ip st i :
  validate name email message = None ->
  isSpam name subject message = false ->
  configured E = true ->
  write_ok E (writes st) = true ->
  write_ok E (S (writes st)) = true ->
  findIndex (fun x => Z.eqb (Message.id x) (Date_now E)) (stored st)
  = Some i ->
  let newMessage := newMessage_of E name email subject message ip in
  let r := fst (sendToTelegram (remote E) newMessage 3) in
  disk (snd (contact_sanitized E name email subject message ip st))
  = FileJson (update_at i (Message.with_status (success r)
                                               (or_null (error r)))
                        (stored st)
              ++ [newMessage])%list
  /\ Message.telegramSent newMessage = false.
Proof.
  intros Hv Hs Hc Hw1 Hw2 Hi newMessage r. split; [|reflexivity].
  pose proof (findIndex_app_left _ _ newMessage _ Hi) as Hi'.
  rewrite (contact_stored_steps E name email subject message ip st i
             Hv Hs Hi').
  rewrite Hw1, Hc, Hw2. cbn [snd disk].
  now rewrite update_at_app_left by (eapply findIndex_lt; exact Hi).
Qed.

Lemma contact_id_collision_witness :
  disk (snd (contact_sanitized (live_env (fun _ => true) (fun _ => Accepted))
               "Bea" plain_email "" plain_message None one_record))
  = FileJson
      [Message.with_status true None ann_record;
       newMessage_of (live_env (fun _ => true) (fun _ => Accepted))
         "Bea" plain_email "" plain_message None]
  /\ Message.telegramSent
       (newMessage_of (live_env (fun _ => true) (fun _ => Accepted))
          "Bea" plain_email "" plain_message None) = false.
Proof.
  apply (contact_id_collision (live_env (fun _ => true) (fun _ => Accepted))
           "Bea" plain_email "" plain_message None one_record 0);
    reflexivity.
Defined.

(** The resend and delete routes, step by step. *)
Lemma resend_steps E param st i m :
  findIndex (id_matches param) (stored st) = Some i ->
  nth_error (stored st) i = Some m ->
  configured E = true ->
  let r := fst (sendToTelegram (remote E) m 3) in
  let evs := snd (sendToTelegram (remote E) m 3) in
  let updated :=
    update_at i (Message.with_retry (success r) (or_null (error r))
                                    (Date_iso E))
              (stored st) in
  resendTelegram E param st
  = if write_ok E (writes st) then
      (Returned (resend_answer r),
       {| disk := FileJson updated; writes := S (writes st);
          log := ((log st ++ evs) ++ [EvWrite updated])%list |})
    else
      (Thrown,
       {| disk := after_failed_write (write_damage E (writes st)) (disk st);
          writes := S (writes st);
          log := ((log st ++ evs) ++ [EvWriteFailed])%list |}).
Proof.
  intros Hi Hm Hc r evs updated.
  unfold resendTelegram. unfold bind at 1. rewrite readMessages_stored, Hi.
  rewrite unconfigured_resend, Hc, Hm. cbn [negb].
  rewrite bind_awaitTelegram. fold r evs updated.
  rewrite bind_saveMessages. cbn [writes disk log].
  now destruct (write_ok E (writes st)).
Qed.

Lemma delete_steps E param st i :
  findIndex (id_matches param) (stored st) = Some i ->
  deleteMessage E param st
  = if write_ok E (writes st) then
      (Returned deleted_answer,
       {| disk := FileJson (remove_at i (stored st));
          writes := S (writes st);
          log := (log st ++ [EvWrite (remove_at i (stored st))])%list |})
    else
      (Thrown,
       {| disk := after_failed_write (write_damage E (writes st)) (disk st);
          writes := S (writes st);
          log := (log st ++ [EvWriteFailed])%list |}).
Proof.
  intros Hi. unfold deleteMessage. unfold bind at 1.
  rewrite readMessages_stored, Hi, bind_saveMessages.
  now destruct (write_ok E (writes st)).
Qed.

Lemma resend_cases E param st :
  (findIndex (id_matches param) (stored st) = None
   /\ resendTelegram E param st = (Returned not_found, st))
  \/ (configured E = false
      /\ resendTelegram E param st
         = (Returned (bad_request "Telegram bot not configured"), st))
  \/ exists i m,
       findIndex (id_matches param) (stored st) = Some i
       /\ nth_error (stored st) i = Some m
       /\ configured E = true.
Proof.
  destruct (findIndex (id_matches param) (stored st)) as [i|] eqn:Hi.
  - destruct (configured E) eqn:Hc.
    + right; right. destruct (findIndex_nth _ _ _ Hi) as (m & Hm & _).
      now exists i, m.
    + right; left. split; [reflexivity|].
      unfold resendTelegram, bind.
      now rewrite readMessages_stored, Hi, unconfigured_resend, Hc.
  - left. split; [reflexivity|].
    unfold resendTelegram, bind. now rewrite readMessages_stored, Hi.
Qed.

Lemma validate_none_valid E name email subject message ip :
  validate name email message = None ->
  valid_record (newMessage_of E name email subject message ip) = true.
Proof.
  unfold validate, valid_record. cbn [newMessage_of Message.name
    Message.message Message.email Message.subject Message.read].
  destruct (is_empty name || is_empty email || is_empty message);
    [discriminate|].
  destruct (String.length name <? 2) eqn:H1; [discriminate|].
  destruct (100 <? String.length name) eqn:H2; [discriminate|].
  destruct (String.length message <? 10) eqn:H3; [discriminate|].
  destruct (1000 <? String.length message) eqn:H4; [discriminate|].
  destruct (isValidEmail email); [|discriminate].
  intros _. apply Nat.ltb_ge in H1, H2, H3, H4.
  apply Nat.leb_le in H1, H2, H3, H4. rewrite H1, H2, H3, H4.
  destruct subject; reflexivity.
Qed.

(** X19. Every route keeps the records of the file well formed: if
    each stored record has a name of 2 to 100 characters, a message of 10
    to 1000 characters, an address [isValidEmail] accepts, a subject that
    is not empty and [read] false, then the same holds after a
    submission, a resend and a delete, whatever they are given and
    however their writes and requests end.  In particular no route ever
    sets [read]. *)
Theorem routes_keep_records_valid E st :
  forallb valid_record (stored st) = true ->
  (forall name email subject message ip,
      forallb valid_record
        (stored (snd (contact_sanitized E name email subject message ip st)))
      = true)
  /\ (forall param,
        forallb valid_record (stored (snd (resendTelegram E param st)))
        = true)
  /\ (forall param,
        forallb valid_record (stored (snd (deleteMessage E param st)))
        = true).
Proof.
  intros Hst.
  assert (forall damage f w lg,
             forallb valid_record
               (stored {| disk := f; writes := w; log := lg |}) = true ->
             forallb valid_record
               (stored {| disk := after_failed_write damage f; writes := w;
                          log := lg |}) = true) as Hfail.
  { intros damage f w lg H. rewrite stored_after_failed_write.
    now destruct damage. }
  split; [|split].
  - intros name email subject message ip.
    destruct (validate name email message) as [reason|] eqn:Hv.
    { now rewrite (contact_rejected _ _ _ _ _ _ _ _ Hv). }
    destruct (isSpam name subject message) eqn:Hs.
    { unfold contact_sanitized, try_catch. now rewrite Hv, Hs. }
    destruct (new_record_found E name email subject message ip st)
      as [i Hi].
    rewrite (contact_stored_steps E name email subject message ip st i
               Hv Hs Hi).
    assert (forallb valid_record
              (stored st ++ [newMessage_of E name email subject message ip])
            = true) as Happ.
    { rewrite forallb_app, Hst. simpl.
      now rewrite (validate_none_valid E _ _ subject _ ip Hv). }
    destruct (write_ok E (writes st));
      [|cbn [snd]; apply Hfail; destruct st; exact Hst].
    destruct (configured E);
      [destruct (write_ok E (S (writes st)))|];
      cbn [snd]; try apply Hfail; cbn [stored disk]; try exact Happ.
    apply forallb_update_at; [|exact Happ]. intros x Hx. exact Hx.
  - intros param.
    destruct (resend_cases E param st)
      as [[_ ->] | [[_ ->] | (i & m & Hi & Hm & Hc)]]; try exact Hst.
    rewrite (resend_steps E param st i m Hi Hm Hc).
    destruct (write_ok E (writes st)); cbn [snd];
      [|apply Hfail; destruct st; exact Hst].
    cbn [stored disk].
    apply forallb_update_at; [|exact Hst]. intros x Hx. exact Hx.
  - intros param.
    destruct (findIndex (id_matches param) (stored st)) as [i|] eqn:Hi.
    + rewrite (delete_steps E param st i Hi).
      destruct (write_ok E (writes st)); cbn [snd];
        [|apply Hfail; destruct st; exact Hst].
      cbn [stored disk]. now apply forallb_remove_at.
    + unfold deleteMessage, bind. now rewrite readMessages_stored, Hi.
Qed.

Lemma routes_keep_records_valid_witness :
  forallb valid_record
    (stored (snd (resendTelegram
                    (later_env (fun _ => true) (fun _ => Accepted))
                    "1700000000000" one_record))) = true.
Proof.
  assert (forallb valid_record (stored one_record) = true) as H
      by (vm_compute; reflexivity).
  exact (proj1 (proj2 (routes_keep_records_valid
                         (later_env (fun _ => true) (fun _ => Accepted))
                         one_record H)) "1700000000000").
Defined.

(** X20. A request answered with 400 or 404 has changed nothing: the
    file, the count of writes and the log of writes, requests and delays
    are as they were.  This holds for the contact, resend, get and delete
    routes. *)
Theorem client_errors_change_nothing E st :
  (forall name email subject message ip r st',
      contact_sanitized E name email subject message ip st
      = (Returned r, st') ->
      status r = 400 \/ status r = 404 -> st' = st)
  /\ (forall param r st',
        resendTelegram E param st = (Returned r, st') ->
        status r = 400 \/ status r = 404 -> st' = st)
  /\ (forall param r st',
        deleteMessage E param st = (Returned r, st') ->
        status r = 400 \/ status r = 404 -> st' = st)
  /\ (forall param c st', getMessage param st = (c, st') -> st' = st).
Proof.
  split; [|split; [|split]].
  - intros name email subject message ip r st'.
    destruct (validate name email message) as [reason|] eqn:Hv.
    { rewrite (contact_rejected _ _ _ _ _ _ _ _ Hv). now intros [= _ <-]. }
    destruct (isSpam name subject message) eqn:Hs.
    { unfold contact_sanitized, try_catch. rewrite Hv, Hs.
      now intros [= _ <-]. }
    destruct (new_record_found E name email subject message ip st)
      as [i Hi].
    rewrite (contact_stored_steps E name email subject message ip st i
               Hv Hs Hi).
    destruct (write_ok E (writes st));
      [destruct (configured E);
       [destruct (write_ok E (S (writes st)))|]|];
      intros [= <- _] [H|H]; discriminate H.
  - intros param r st'.
    destruct (resend_cases E param st)
      as [[_ ->] | [[_ ->] | (i & m & Hi & Hm & Hc)]];
      try (now intros [= _ <-]).
    rewrite (resend_steps E param st i m Hi Hm Hc).
    destruct (write_ok E (writes st)); [|discriminate].
    intros [= <- _] [H|H]; discriminate H.
  - intros param r st'.
    destruct (findIndex (id_matches param) (stored st)) as [i|] eqn:Hi.
    + rewrite (delete_steps E param st i Hi).
      destruct (write_ok E (writes st)); [|discriminate].
      intros [= <- _] [H|H]; discriminate H.
    + unfold deleteMessage, bind. rewrite readMessages_stored, Hi.
      now intros [= _ <-].
  - intros param c st'. unfold getMessage, bind.
    rewrite readMessages_stored.
    destruct (find (id_matches param) (stored st)); now intros [= _ <-].
Qed.

Lemma client_errors_change_nothing_witness :
  snd (contact_sanitized bare_env "A" plain_email "" plain_message None
         one_record) = one_record.
Proof.
  destruct (client_errors_change_nothing bare_env one_record) as (H & _).
  apply (H "A" plain_email "" plain_message None (bad_request name_error));
    [reflexivity | now left].
Defined.

(** ** Reading back what was stored *)

Lemma map_eq_snoc {A B} (f : A -> B) l a b :
  map f l = (a ++ [b])%list ->
  exists l1 m, l = (l1 ++ [m])%list /\ map f l1 = a /\ f m = b.
Proof.
  intros H. apply map_eq_app in H as (l1 & l2 & -> & H1 & H2).
  destruct l2 as [|m [|x l2]]; try discriminate.
  injection H2 as H2. now exists l1, m.
Qed.

(** X21. The list is newest first: right after a submission that is
    stored (its status write, if there is one, succeeding or failing at
    the open, so that the file is not cut), the list route answers with
    one record more than before, the new submission first and the earlier
    ones after it in reverse order of storage; and listing changes
    nothing. *)
Theorem list_after_contact E name email subject message ip st :
  validate name email message = None ->
  isSpam name subject message = false ->
  write_ok E (writes st) = true ->
  (configured E = true -> write_spares E (S (writes st)) = true) ->
  let st' := snd (contact_sanitized E name email subject message ip st) in
  exists m rest,
    listMessages st'
    = (Returned {| status := 200;
                   json := BList (S (List.length (stored st))) (m :: rest) |},
       st')
    /\ content m = content (newMessage_of E name email subject message ip)
    /\ map content rest = rev (map content (stored st)).
Proof.
  intros Hv Hs Hw Hw2 st'.
  pose proof (contact_content E name email subject message ip st Hv Hs Hw
                Hw2) as Hc.
  fold st' in Hc. apply map_eq_snoc in Hc as (l1 & m & Hl & H1 & Hm).
  exists m, (rev l1). unfold listMessages, bind.
  rewrite readMessages_stored, Hl, rev_app_distr, length_app.
  rewrite <- (length_map content l1), H1, length_map, Nat.add_comm.
  repeat split; [exact Hm|]. now rewrite map_rev, H1.
Qed.

Lemma list_after_contact_witness :
  exists m rest,
    listMessages
      (snd (contact_sanitized (later_env (fun _ => true) (fun _ => Accepted))
              "Bea" plain_email "" plain_message None one_record))
    = (Returned {| status := 200; json := BList 2 (m :: rest) |},
       snd (contact_sanitized (later_env (fun _ => true) (fun _ => Accepted))
              "Bea" plain_email "" plain_message None one_record))
    /\ content m
       = content (newMessage_of
                    (later_env (fun _ => true) (fun _ => Accepted))
                    "Bea" plain_email "" plain_message None)
    /\ map content rest = [content ann_record].
Proof.
  apply (list_after_contact (later_env (fun _ => true) (fun _ => Accepted))
           "Bea" plain_email "" plain_message None one_record);
    reflexivity.
Defined.

(** Without that condition the list can come back empty: a status
    write that fails after the open cuts the file, and the submission is
    lost with the earlier records. *)
Lemma list_after_cut_file :
  write_ok (full_disk_env (S (writes one_record)) (fun _ => Accepted))
           (writes one_record) = true
  /\ fst (contact_sanitized
            (full_disk_env (S (writes one_record)) (fun _ => Accepted))
            "Bea" plain_email "" plain_message None one_record)
     = Returned server_error
  /\ fst (listMessages
            (snd (contact_sanitized
                    (full_disk_env (S (writes one_record))
                                   (fun _ => Accepted))
                    "Bea" plain_email "" plain_message None one_record)))
     = Returned {| status := 200; json := BList 0 [] |}.
Proof. vm_compute. repeat split. Qed.

Lemma id_matches_iff param m :
  id_matches param m = true <-> parseInt param = Some (Message.id m).
Proof.
  unfold id_matches. destruct (parseInt param) as [n|].
  - rewrite Z.eqb_eq. split; [now intros -> | now intros [= ->]].
  - split; discriminate.
Qed.

Lemma id_matches_content param m m' :
  content m = content m' -> id_matches param m = id_matches param m'.
Proof. unfold id_matches, content. now intros [= -> _]. Qed.

Lemma find_app_new {A} (f : A -> bool) l x :
  (forall y, In y l -> f y = false) -> f x = true ->
  find f (l ++ [x])%list = Some x.
Proof.
  intros Hl Hx. induction l as [|a l IH]; simpl.
  - now rewrite Hx.
  - rewrite (Hl a) by (now left). apply IH. intros y Hy. apply Hl.
    now right.
Qed.

(** X22. Store, then get: after a submission that is stored (its
    status write, if there is one, succeeding or failing at the open, so
    that the file is not cut), when no earlier record carries the same
    id, the get route, asked for the id of the submission, answers 200
    with a record that holds the sanitized fields as they were
    submitted. *)
Theorem get_after_contact E name email subject message ip st param :
  validate name email message = None ->
  isSpam name subject message = false ->
  write_ok E (writes st) = true ->
  (configured E = true -> write_spares E (S (writes st)) = true) ->
  (forall m, In m (stored st) -> Message.id m <> Date_now E) ->
  parseInt param = Some (Date_now E) ->
  let st' := snd (contact_sanitized E name email subject message ip st) in
  exists m,
    getMessage param st'
    = (Returned {| status := 200; json := BMessage m |}, st')
    /\ content m = content (newMessage_of E name email subject message ip).
Proof.
  intros Hv Hs Hw Hw2 Hfresh Hp st'.
  pose proof (contact_content E name email subject message ip st Hv Hs Hw
                Hw2) as Hc.
  fold st' in Hc. apply map_eq_snoc in Hc as (l1 & m & Hl & H1 & Hm).
  exists m. split; [|exact Hm].
  unfold getMessage, bind. rewrite readMessages_stored, Hl.
  rewrite find_app_new; [reflexivity| |].
  - intros y Hy.
    assert (In (content y) (map content (stored st))) as Hin
        by (rewrite <- H1; now apply in_map).
    apply in_map_iff in Hin as (y0 & Hy0 & Hin).
    rewrite <- (id_matches_content param y0 y Hy0).
    destruct (id_matches param y0) eqn:H; [|reflexivity].
    apply id_matches_iff in H. specialize (Hfresh y0 Hin). congruence.
  - rewrite (id_matches_content param m _ Hm). now apply id_matches_iff.
Qed.

Lemma get_after_contact_witness :
  exists m,
    getMessage "1700000000500"
      (snd (contact_sanitized (later_env (fun _ => true) (fun _ => Accepted))
              "Bea" plain_email "" plain_message None one_record))
    = (Returned {| status := 200; json := BMessage m |},
       snd (contact_sanitized (later_env (fun _ => true) (fun _ => Accepted))
              "Bea" plain_email "" plain_message None one_record))
    /\ content m
       = content (newMessage_of
                    (later_env (fun _ => true) (fun _ => Accepted))
                    "Bea" plain_email "" plain_message None).
Proof.
  apply (get_after_contact (later_env (fun _ => true) (fun _ => Accepted))
           "Bea" plain_email "" plain_message None one_record
           "1700000000500"); try reflexivity.
  intros m [<- | []]. discriminate.
Defined.

(** X23. The get route answers 200 exactly when some stored record
    has the id parsed from the parameter, and the record it returns is a
    stored one with that id, the first in the file. *)
Theorem getMessage_finds_by_id param st :
  ((exists m, In m (stored st) /\ parseInt param = Some (Message.id m))
   <-> exists m, getMessage param st
                 = (Returned {| status := 200; json := BMessage m |}, st))
  /\ (forall m,
        getMessage param st
        = (Returned {| status := 200; json := BMessage m |}, st) ->
        In m (stored st)
        /\ parseInt param = Some (Message.id m)
        /\ find (id_matches param) (stored st) = Some m).
Proof.
  unfold getMessage, bind. rewrite readMessages_stored.
  destruct (find (id_matches param) (stored st)) as [x|] eqn:Hf.
  - pose proof (find_some _ _ Hf) as [Hin Hx]. apply id_matches_iff in Hx.
    split.
    + split; [intros _; now exists x | intros _; now exists x].
    + intros m [= <-]. now repeat split.
  - split.
    + split.
      * intros (m & Hin & Hm). apply id_matches_iff in Hm.
        rewrite (find_none _ _ Hf m Hin) in Hm. discriminate.
      * intros (m & [=]).
    + intros m [=].
Qed.

(** ** Deleting and resending *)

Lemma stored_written l w lg :
  stored {| disk := FileJson l; writes := w; log := lg |} = l.
Proof. reflexivity. Qed.

Lemma remove_at_length {A} i (l : list A) :
  i < List.length l -> S (List.length (remove_at i l)) = List.length l.
Proof.
  revert i. induction l as [|a l IH]; intros [|i]; simpl; try lia.
  intros H. rewrite IH by lia. reflexivity.
Qed.

Lemma remove_at_keeps {A} (f : A -> bool) i (l : list A) x :
  findIndex f l = Some i -> In x l -> f x = false -> In x (remove_at i l).
Proof.
  revert i. induction l as [|a l IH]; simpl; [discriminate|].
  intros i Hi Hin Hx. destruct (f a) eqn:Fa.
  - injection Hi as <-. destruct Hin as [->|Hin]; [congruence|exact Hin].
  - destruct (findIndex f l) as [j|]; [|discriminate].
    injection Hi as <-. simpl.
    destruct Hin as [->|Hin]; [now left|right]. now apply IH.
Qed.

Lemma remove_at_unique param i l :
  NoDup (map Message.id l) ->
  findIndex (id_matches param) l = Some i ->
  forall x, In x (remove_at i l) -> id_matches param x = false.
Proof.
  revert i. induction l as [|a l IH]; simpl; [discriminate|].
  intros i Hnd Hi x. inversion Hnd as [|? ? Hnotin Hnd']; subst.
  destruct (id_matches param a) eqn:Fa.
  - injection Hi as <-. simpl. intros Hin.
    destruct (id_matches param x) eqn:Fx; [|reflexivity].
    exfalso. apply Hnotin. apply id_matches_iff in Fa, Fx.
    assert (Message.id a = Message.id x) as -> by congruence.
    now apply in_map.
  - destruct (findIndex (id_matches param) l) as [j|]; [|discriminate].
    injection Hi as <-. simpl. intros [<-|Hin]; [exact Fa|].
    now apply (IH j).
Qed.

(** X24. Delete, then get: when the ids in the file are distinct, the
    parameter names a stored record and the write succeeds, the delete
    route answers 200, the file has one record fewer, every record with
    another id is still there, and a get with the same parameter now
    answers 404. *)
Theorem delete_then_get E param st m :
  NoDup (map Message.id (stored st)) ->
  In m (stored st) ->
  parseInt param = Some (Message.id m) ->
  write_ok E (writes st) = true ->
  let st' := snd (deleteMessage E param st) in
  fst (deleteMessage E param st) = Returned deleted_answer
  /\ S (List.length (stored st')) = List.length (stored st)
  /\ (forall x, In x (stored st) -> Message.id x <> Message.id m ->
                In x (stored st'))
  /\ getMessage param st' = (Returned not_found, st').
Proof.
  intros Hnd Hin Hp Hw st'.
  destruct (proj2 (findIndex_some_iff (id_matches param) (stored st)))
    as [i Hi].
  { exists m. split; [exact Hin | now apply id_matches_iff]. }
  subst st'. rewrite (delete_steps E param st i Hi), Hw.
  cbn [fst snd]. split; [reflexivity|]. rewrite !stored_written.
  split; [apply remove_at_length; eapply findIndex_lt; exact Hi|].
  split.
  - intros x Hx Hne. apply (remove_at_keeps (id_matches param) i _ x Hi Hx).
    destruct (id_matches param x) eqn:Fx; [|reflexivity].
    apply id_matches_iff in Fx. congruence.
  - unfold getMessage, bind. rewrite readMessages_stored, stored_written.
    rewrite (proj2 (find_none_iff (id_matches param) _)); [reflexivity|].
    now apply remove_at_unique.
Qed.

Lemma delete_then_get_witness :
  fst (deleteMessage bare_env "1700000000000" two_records)
  = Returned deleted_answer
  /\ getMessage "1700000000000"
       (snd (deleteMessage bare_env "1700000000000" two_records))
     = (Returned not_found,
        snd (deleteMessage bare_env "1700000000000" two_records)).
Proof.
  destruct (delete_then_get bare_env "1700000000000" two_records ann_record)
    as (H1 & _ & _ & H2); try reflexivity.
  - repeat constructor; simpl; intuition discriminate.
  - now left.
  - split; assumption.
Defined.

Lemma nth_error_update_at {A} (f : A -> A) i j (l : list A) :
  nth_error (update_at i f l) j
  = if i =? j then option_map f (nth_error l j) else nth_error l j.
Proof.
  revert i j. induction l as [|a l IH]; intros [|i] [|j]; simpl;
    try reflexivity.
  - now destruct (i =? j).
  - apply IH.
Qed.

Lemma update_at_length {A} (f : A -> A) i (l : list A) :
  List.length (update_at i f l) = List.length l.
Proof.
  revert i. induction l as [|a l IH]; intros [|i]; simpl; try reflexivity.
  now rewrite IH.
Qed.

(** X25. A resend for a stored record, with the notifier configured:
    the notifier is called for that record; if the write succeeds the
    answer carries the [success] of the notifier, the record found gets
    [telegramSent], [telegramError] (the error, or [null]) and
    [telegramRetryAt] set, and every other record, the number of records
    and all creation fields stay as they were; if the write fails the
    route throws, and the file is what the failed write leaves: as
    before when the open failed, cut when the write failed after the
    open, and then no record is read from it any more. *)
Theorem resend_updates_one_record E param st i m :
  findIndex (id_matches param) (stored st) = Some i ->
  nth_error (stored st) i = Some m ->
  configured E = true ->
  let r := fst (sendToTelegram (remote E) m 3) in
  let st' := snd (resendTelegram E param st) in
  if write_ok E (writes st) then
    fst (resendTelegram E param st) = Returned (resend_answer r)
    /\ nth_error (stored st') i
       = Some (Message.with_retry (success r) (or_null (error r))
                                  (Date_iso E) m)
    /\ (forall j, j <> i -> nth_error (stored st') j = nth_error (stored st) j)
    /\ List.length (stored st') = List.length (stored st)
    /\ map content (stored st') = map content (stored st)
  else
    fst (resendTelegram E param st) = Thrown
    /\ disk st' = after_failed_write (write_damage E (writes st)) (disk st)
    /\ (write_damage E (writes st) = None -> stored st' = stored st)
    /\ (write_damage E (writes st) <> None -> stored st' = []).
Proof.
  intros Hi Hm Hc r st'. subst st'.
  rewrite (resend_steps E param st i m Hi Hm Hc). fold r.
  destruct (write_ok E (writes st)); cbn [fst snd].
  2:{ split; [reflexivity|]. split; [reflexivity|].
      unfold stored. cbn [disk].
      destruct (write_damage E (writes st)); simpl; split; intros H;
        try reflexivity; try discriminate; now elim H. }
  rewrite !stored_written.
  split; [reflexivity|]. split; [|split; [|split]].
  - now rewrite nth_error_update_at, Nat.eqb_refl, Hm.
  - intros j Hj. rewrite nth_error_update_at.
    destruct (i =? j) eqn:Hij; [|reflexivity].
    apply Nat.eqb_eq in Hij. congruence.
  - apply update_at_length.
  - apply map_update_at, content_with_retry.
Qed.

Lemma resend_updates_one_record_witness :
  fst (resendTelegram (later_env (fun _ => true) (fun _ => Accepted))
         "1700000000000" one_record)
  = Returned {| status := 200;
                json := BInfo true "Message sent to Telegram successfully" |}
  /\ stored (snd (resendTelegram
                    (later_env (fun _ => true) (fun _ => Accepted))
                    "1700000000000" one_record))
     = [Message.with_retry true None "2023-11-14T22:13:20.500Z" ann_record].
Proof.
  destruct (resend_updates_one_record
              (later_env (fun _ => true) (fun _ => Accepted))
              "1700000000000" one_record 0 ann_record
              eq_refl eq_refl eq_refl) as (H1 & _).
  split; [exact H1 | reflexivity].
Defined.

(** ** The contact form of the page *)

(** X26. Whatever the backend and the worker do, the listener ends
    with the submit button enabled again (if there is one), and the
    banner shows one of three things: success, exactly when the local
    backend (on localhost) reported success or an OK status, or else the
    worker answered [ok]; failure, exactly when the worker was needed and
    could not be reached, did not answer in JSON, or answered not [ok]
    with an error text; and otherwise, when the worker answered not [ok]
    without an error text, the banner is left at "Sending message...".
    The form is reset, and the banner scheduled to clear, only on
    success. *)
Theorem submit_outcome hostname form backend worker p :
  let p' := submit hostname form backend worker p in
  let local := isLocalhost hostname && local_success backend in
  button_disabled p' = option_map (fun _ => false) (button_disabled p)
  /\ (shown p' = Sent
      <-> local = true \/ exists e, worker = WorkerJson true e)
  /\ (shown p' = Failed
      <-> local = false
          /\ (worker = WorkerDown \/ worker = WorkerNotJson
              \/ exists e, worker = WorkerJson false e /\ truthy e = true))
  /\ (shown p' = Sending
      <-> local = false
          /\ exists e, worker = WorkerJson false e /\ truthy e = false)
  /\ (form_resets p' = if banner_sent (shown p') then S (form_resets p)
                       else form_resets p)
  /\ (timers p' = if banner_sent (shown p') then (timers p ++ [4000])%list
                  else timers p).
Proof.
  intros p' local. subst p' local. unfold submit.
  split; [destruct (isLocalhost hostname), (local_success backend),
            (worker_success worker) as [[|]|], (button_disabled p);
          reflexivity|].
  destruct (isLocalhost hostname); cbn [andb].
  - destruct (local_success backend).
    + cbn [shown form_resets timers banner_sent].
      repeat split; try discriminate; try tauto; intros [H _]; discriminate.
    + destruct worker as [| |[|] e]; cbn [worker_success negb andb];
        [| | |destruct (truthy e) eqn:He];
        cbn [shown form_resets timers banner_sent];
        repeat split; try discriminate; try tauto; eauto;
        try (intros [H|(e' & H)]; discriminate);
        try (intros (_ & [H|[H|(e' & H & H')]]); congruence);
        try (intros (_ & e' & H & H'); congruence).
  - destruct worker as [| |[|] e]; cbn [worker_success negb andb];
      [| | |destruct (truthy e) eqn:He];
      cbn [shown form_resets timers banner_sent];
      repeat split; try discriminate; try tauto; eauto;
      try (intros [H|(e' & H)]; discriminate);
      try (intros (_ & [H|[H|(e' & H & H')]]); congruence);
      try (intros (_ & e' & H & H'); congruence).
Qed.

(** The listener contacts the local backend only on localhost, and
    then first; it contacts the worker exactly when the backend was not
    asked or did not report success. *)
Lemma submit_requests hostname form backend worker p :
  requests (submit hostname form backend worker p)
  = (requests p
     ++ (if isLocalhost hostname then [ToBackend form] else [])
     ++ (if isLocalhost hostname && local_success backend then []
         else [ToWorker form]))%list.
Proof.
  unfold submit.
  destruct (isLocalhost hostname), (local_success backend),
    (worker_success worker) as [[|]|]; reflexivity.
Qed.

Lemma contact_reply E form ip st :
  let name := sanitizeInput (b_name form) in
  let email := sanitizeInput (b_email form) in
  let subject := sanitizeInput (b_subject form) in
  let message := sanitizeInput (b_message form) in
  (validate name email message <> None ->
   exists reason, fst (contact E form ip st) = Returned (bad_request reason))
  /\ (validate name email message = None ->
      isSpam name subject message = true ->
      fst (contact E form ip st) = Returned (created None))
  /\ (validate name email message = None ->
      isSpam name subject message = false ->
      write_ok E (writes st) = true ->
      (configured E = true -> write_ok E (S (writes st)) = true) ->
      exists notified,
        fst (contact E form ip st) = Returned (created (Some notified))).
Proof.
  intros name email subject message. unfold contact.
  fold name email subject message. split; [|split].
  - intros Hv. destruct (validate name email message) as [reason|] eqn:H;
      [|congruence].
    exists reason. now rewrite (contact_rejected _ _ _ _ _ _ _ _ H).
  - intros Hv Hs. unfold contact_sanitized, try_catch. now rewrite Hv, Hs.
  - intros Hv Hs Hw1 Hw2.
    destruct (new_record_found E name email subject message ip st)
      as [i Hi].
    rewrite (contact_stored_steps E name email subject message ip st i
               Hv Hs Hi), Hw1.
    destruct (configured E); [rewrite Hw2 by reflexivity|];
      eexists; reflexivity.
Qed.

(** X27. Page and backend together, on localhost, for a request that
    reaches the contact route: a submission that fails a check of the
    backend is answered 400 there and is then sent on to the worker; a
    submission flagged as spam, and one that is stored, are answered 201,
    the worker is not contacted and the page shows success. *)
Theorem page_and_backend E hostname form ip st worker p :
  isLocalhost hostname = true ->
  let name := sanitizeInput (b_name form) in
  let email := sanitizeInput (b_email form) in
  let subject := sanitizeInput (b_subject form) in
  let message := sanitizeInput (b_message form) in
  let reply := match fst (contact E form ip st) with
               | Returned r => reply_of r
               | Thrown => BackendDown
               end in
  let p' := submit hostname form reply worker p in
  (validate name email message <> None ->
   requests p' = (requests p ++ [ToBackend form; ToWorker form])%list)
  /\ (validate name email message = None ->
      isSpam name subject message = true
      \/ (write_ok E (writes st) = true
          /\ (configured E = true -> write_ok E (S (writes st)) = true)) ->
      requests p' = (requests p ++ [ToBackend form])%list
      /\ shown p' = Sent).
Proof.
  intros Hl name email subject message reply p'.
  destruct (contact_reply E form ip st) as (H400 & Hspam & Hstored).
  fold name email subject message in H400, Hspam, Hstored.
  subst p'. rewrite submit_requests, Hl. cbn [andb].
  split.
  - intros Hv. destruct (H400 Hv) as [reason Hr]. subst reply.
    now rewrite Hr.
  - intros Hv Hcase.
    assert (exists notified,
               fst (contact E form ip st) = Returned (created notified))
      as [notified Hr].
    { destruct (isSpam name subject message) eqn:Hs.
      - exists None. now apply Hspam.
      - destruct Hcase as [Hcase|[Hw1 Hw2]]; [discriminate|].
        destruct (Hstored Hv eq_refl Hw1 Hw2) as [n Hn]. now exists (Some n). }
    subst reply. rewrite Hr. split; [reflexivity|].
    unfold submit. now rewrite Hl.
Qed.

Lemma page_and_backend_witness :
  requests (submit "localhost"
              {| b_name := Some "A"; b_email := Some plain_email;
                 b_subject := None; b_message := Some plain_message |}
              (match fst (contact bare_env
                            {| b_name := Some "A";
                               b_email := Some plain_email;
                               b_subject := None;
                               b_message := Some plain_message |}
                            None empty_store) with
               | Returned r => reply_of r
               | Thrown => BackendDown
               end)
              WorkerDown fresh_page)
  = [ToBackend {| b_name := Some "A"; b_email := Some plain_email;
                  b_subject := None; b_message := Some plain_message |};
     ToWorker {| b_name := Some "A"; b_email := Some plain_email;
                 b_subject := None; b_message := Some plain_message |}].
Proof.
  apply (proj1 (page_and_backend bare_env "localhost"
                  {| b_name := Some "A"; b_email := Some plain_email;
                     b_subject := None; b_message := Some plain_message |}
                  None empty_store WorkerDown fresh_page eq_refl)).
  vm_compute. discriminate.
Defined.
